(** * A shallow embedding of the function-calling conversation agent

    The development follows the three JavaScript classes of the repository:

    - [FunctionRegistry] (function-registry.js): schema/handler bindings,
      argument validation, execution under a timeout race, sanitisation;
    - [OpenAIClient] (openai-client.js): the completion request with its
      retry loop and error classification;
    - [ChatManager] (chat-manager.js): the transcript and the
      completion / function-call protocol.

    JavaScript values are an inductive type, [async] code with [try]/[catch]
    is a state-and-exception monad over an explicit world (clock readings,
    the completion endpoint, [Math.random], and a trace of the effects the
    code performs), and the recursion between [processOpenAIResponse],
    [handleFunctionCall] and [getFinalResponseAfterFunction] is bounded by a
    round budget whose exhaustion is a distinguished outcome.

    Conventions. Strings are sequences of code units, each below 256 (the
    type [ascii]). Schemas, messages and options are records: a member that
    is absent in JavaScript is [None], and the tests of the source on the
    JavaScript type of such a member hold by typing. A function handler is
    the function from its arguments to what the call does (throw, settle
    after so many milliseconds, never settle); what it throws or rejects with
    is an error object, [null] or [undefined].
    The messages of the errors the engine itself throws are those of V8, the
    engine of Node.js; where the message depends on more than the code shows
    ([JSON.parse], [RegExp]) it is the runtime's. Output to the console is
    not represented. Every definition that embeds a
    method carries the method's name. *)

From Stdlib Require Import ZArith NArith QArith Qround String Ascii List Bool Lia Arith.
From Stdlib Require Import DecimalString Lqa.
Import ListNotations.

Set Warnings "-register-all".
Local Close Scope Q_scope.
Local Open Scope string_scope.
Local Open Scope list_scope.

(* ===================================================================== *)
(** ** JavaScript values and the runtime                                  *)
(* ===================================================================== *)

Module JS.

(** A JavaScript number: a finite double is represented by the rational it
    denotes; the three non-finite doubles are separate constructors. *)
Inductive jsnum : Type :=
| Fin (q : Q)
| NaN
| PosInf
| NegInf.

(** JavaScript values, tree shaped (object identity and cycles are not
    represented). [JError] is an instance of [Error] with its [name],
    [message] and [stack] and its own enumerable properties; an object is the
    list of its own enumerable properties in enumeration order. *)
Inductive jsval : Type :=
| JUndefined
| JNull
| JBool (b : bool)
| JNum (n : jsnum)
| JBigInt (z : Z)
| JStr (s : string)
| JSymbol (description : string)
| JFunction (fname : string)
| JArr (items : list jsval)
| JObj (props : list (string * jsval))
| JError (ename emessage estack : string) (props : list (string * jsval)).

(** An exception value: every [throw] of the three classes throws an [Error]
    (name and message); errors raised by the completion endpoint also carry
    [status] and [code]. *)
Record JsError : Type := mkError {
  err_name : string;
  err_message : string;
  err_status : option Z;
  err_code : option string
}.

(** [new Error(msg)] *)
Definition new_Error (msg : string) : JsError := mkError "Error" msg None None.
(** A [TypeError] raised by the runtime itself. *)
Definition new_TypeError (msg : string) : JsError := mkError "TypeError" msg None None.

(** [typeof v] *)
Definition typeof (v : jsval) : string :=
  match v with
  | JUndefined => "undefined"
  | JNull => "object"
  | JBool _ => "boolean"
  | JNum _ => "number"
  | JBigInt _ => "bigint"
  | JStr _ => "string"
  | JSymbol _ => "symbol"
  | JFunction _ => "function"
  | JArr _ | JObj _ | JError _ _ _ _ => "object"
  end.

Definition num_is_zero (n : jsnum) : bool :=
  match n with Fin q => Qeq_bool q 0 | _ => false end.

(** ToBoolean *)
Definition truthy (v : jsval) : bool :=
  match v with
  | JUndefined | JNull => false
  | JBool b => b
  | JNum NaN => false
  | JNum n => negb (num_is_zero n)
  | JBigInt z => negb (Z.eqb z 0)
  | JStr s => negb (String.eqb s "")
  | _ => true
  end.

(** [a < b] on numbers (false whenever an operand is NaN). *)
Definition num_lt (a b : jsnum) : bool :=
  match a, b with
  | NaN, _ | _, NaN => false
  | Fin x, Fin y => negb (Qle_bool y x)
  | NegInf, NegInf => false
  | NegInf, _ => true
  | _, PosInf => match a with PosInf => false | _ => true end
  | _, _ => false
  end.

(** [a > b] *)
Definition num_gt (a b : jsnum) : bool := num_lt b a.

Definition num_of_nat (n : nat) : jsnum := Fin (inject_Z (Z.of_nat n)).

(** [Number.isInteger] on a finite number. *)
Definition q_is_integer (q : Q) : bool :=
  Z.eqb (Z.modulo (Qnum q) (Zpos (Qden q))) 0.

Definition nat_to_string (n : nat) : string :=
  NilEmpty.string_of_uint (Nat.to_uint n).

(** [l.join(sep)] on strings. *)
Fixpoint join (sep : string) (l : list string) : string :=
  match l with
  | [] => ""
  | [x] => x
  | x :: rest => x ++ sep ++ join sep rest
  end.

(** Names every plain object inherits from [Object.prototype]; the [in]
    operator sees them although they are not own properties. *)
Definition object_prototype_keys : list string :=
  [ "constructor"; "__defineGetter__"; "__defineSetter__"; "hasOwnProperty";
    "__lookupGetter__"; "__lookupSetter__"; "isPrototypeOf";
    "propertyIsEnumerable"; "toString"; "valueOf"; "__proto__";
    "toLocaleString" ].

Definition mem_string (k : string) (l : list string) : bool :=
  existsb (String.eqb k) l.

(** Own-property lookup in a property list. *)
Fixpoint lookup {A : Type} (k : string) (l : list (string * A)) : option A :=
  match l with
  | [] => None
  | (k', v) :: rest => if String.eqb k k' then Some v else lookup k rest
  end.

Definition keys {A : Type} (l : list (string * A)) : list string := map fst l.

(** [Object.entries] of an array: index keys in order. *)
Fixpoint index_entries (i : nat) (l : list jsval) : list (string * jsval) :=
  match l with
  | [] => []
  | v :: rest => (nat_to_string i, v) :: index_entries (S i) rest
  end.

(** The parts of the JavaScript runtime the classes call and that are kept
    abstract: text conversions, [JSON.parse], regular expressions and the
    members of [Array.prototype]. *)
Class Runtime : Type := {
  (** [String(v)] for a value that is not a string *)
  js_String : jsval -> string;
  (** [ToNumber(v)] for a value that is not a number *)
  js_ToNumber : jsval -> jsnum;
  (** the decimal text of a number, as a template literal prints it *)
  num_to_string : jsnum -> string;
  (** [JSON.parse(text)]: the value, or the message of the SyntaxError *)
  JSON_parse : string -> jsval + string;
  (** [JSON.stringify(v, null, 2)] on a value it accepts *)
  JSON_pretty : jsval -> string;
  (** the length of [JSON.stringify({name, arguments})] *)
  JSON_function_call_length : string -> string -> nat;
  (** [new RegExp(pattern).test(text)]: the result, or the message of the
      SyntaxError when the pattern is refused *)
  regexp_test : string -> string -> bool + string;
  (** names found on [Array.prototype] *)
  array_prototype_keys : list string;
  (** [new Date(ms).toISOString()] *)
  toISOString : N -> string
}.

Section Conversions.
Context {rt : Runtime}.

(** [String(v)] *)
Definition to_string (v : jsval) : string :=
  match v with
  | JStr s => s
  | _ => js_String v
  end.

(** ToNumber *)
Definition to_number (v : jsval) : jsnum :=
  match v with
  | JNum n => n
  | _ => js_ToNumber v
  end.

(** [k in v] for a value with [typeof v === 'object'] that is not null. *)
Definition js_in (k : string) (v : jsval) : bool :=
  match v with
  | JObj props => mem_string k (keys props) || mem_string k object_prototype_keys
  | JArr items =>
      mem_string k (keys (index_entries 0 items)) || String.eqb k "length"
      || mem_string k array_prototype_keys || mem_string k object_prototype_keys
  | JError _ _ _ props =>
      mem_string k (keys props) || mem_string k ["stack"; "message"; "name"]
      || mem_string k object_prototype_keys
  | _ => false
  end.

(** [Object.entries(v)] *)
Definition object_entries (v : jsval) : list (string * jsval) :=
  match v with
  | JObj props => props
  | JArr items => index_entries 0 items
  | JError _ _ _ props => props
  | _ => []
  end.

(** SameValueZero, the comparison of [Array.prototype.includes]; two object
    values are never the same reference here (one comes from the schema, the
    other from the call). *)
Definition same_value_zero (a b : jsval) : bool :=
  match a, b with
  | JUndefined, JUndefined => true
  | JNull, JNull => true
  | JBool x, JBool y => Bool.eqb x y
  | JNum NaN, JNum NaN => true
  | JNum (Fin x), JNum (Fin y) => Qeq_bool x y
  | JNum PosInf, JNum PosInf => true
  | JNum NegInf, JNum NegInf => true
  | JBigInt x, JBigInt y => Z.eqb x y
  | JStr x, JStr y => String.eqb x y
  | _, _ => false
  end.

(** [arr.join(sep)]: null and undefined print as the empty string. *)
Definition join_values (sep : string) (l : list jsval) : string :=
  join sep (map (fun v => match v with
                          | JUndefined | JNull => ""
                          | _ => to_string v
                          end) l).

End Conversions.

(** *** The world *)

(** The first choice of a completion response. *)
Record FunctionCall : Type := mkFunctionCall {
  fc_name : string;
  fc_arguments : string
}.

Record Response : Type := mkResponse {
  r_content : jsval;
  r_function_call : option FunctionCall;
  r_finish_reason : string;
  r_usage : jsval;
  r_model : string
}.

Inductive ApiOutcome : Type :=
| ApiOk (r : Response)
| ApiFail (e : JsError).

(** Effects the code performs on its environment, in program order. *)
Inductive Event : Type :=
| EvTimerSet (ms : N)                       (* setTimeout of the timeout race *)
| EvHandlerCall (fname : string) (args : jsval)
| EvTimerUnawaited (ms : N)                 (* the race is never entered: the
                                               rejection of the timer's promise,
                                               [ms] later, has no handler *)
| EvApiCall (roles_and_contents : list (string * string))
| EvSleep (delay : Q).                      (* _sleep(delay) *)

(** The environment: the value of each successive clock reading, the outcome
    of each successive completion request, each successive [Math.random()],
    and what has been consumed and done so far. *)
Record World : Type := mkWorld {
  clock : nat -> N;
  clock_reads : nat;
  api : nat -> ApiOutcome;
  api_calls : nat;
  random : nat -> Q;
  random_reads : nat;
  trace : list Event
}.

(** *** Results *)

(** The outcome of code without side effects: a value, or a thrown error. *)
Inductive Exc (A : Type) : Type :=
| Ok (a : A)
| Raise (e : JsError).
Arguments Ok {A} a.
Arguments Raise {A} e.

(** *** The monad of effectful code *)

Inductive Res (A : Type) : Type :=
| Ret (a : A)
| Throw (e : JsError)
| OutOfRounds.
Arguments Ret {A} a.
Arguments Throw {A} e.
Arguments OutOfRounds {A}.

Definition M (S A : Type) : Type := S -> Res A * S.

Definition ret {S A} (a : A) : M S A := fun s => (Ret a, s).
Definition throw {S A} (e : JsError) : M S A := fun s => (Throw e, s).
Definition out_of_rounds {S A} : M S A := fun s => (OutOfRounds, s).

Definition bind {S A B} (c : M S A) (k : A -> M S B) : M S B :=
  fun s => match c s with
           | (Ret a, s') => k a s'
           | (Throw e, s') => (Throw e, s')
           | (OutOfRounds, s') => (OutOfRounds, s')
           end.

(** [try { c } catch (e) { h e }]: the state changes made before the throw
    stay. *)
Definition try_catch {S A} (c : M S A) (h : JsError -> M S A) : M S A :=
  fun s => match c s with
           | (Throw e, s') => h e s'
           | other => other
           end.

(** A pure outcome inside effectful code. *)
Definition pure {S A} (r : Exc A) : M S A :=
  fun s => match r with Ok a => (Ret a, s) | Raise e => (Throw e, s) end.

Definition get {S} : M S S := fun s => (Ret s, s).
Definition put {S} (s : S) : M S unit := fun _ => (Ret tt, s).
Definition modify {S} (f : S -> S) : M S unit := fun s => (Ret tt, f s).

Declare Scope js_scope.
Delimit Scope js_scope with js.
Notation "x <- c ;; k" := (bind c (fun x => k))
  (at level 61, c at next level, right associativity) : js_scope.
Notation "c ;;; k" := (bind c (fun _ => k))
  (at level 61, right associativity) : js_scope.

(** Run a computation on the world inside a larger state. *)
Definition lift_world {S A} (c : M World A) : M (S * World) A :=
  fun s => let (r, w') := c (snd s) in (r, (fst s, w')).

Definition log (e : Event) : M World unit :=
  modify (fun w => mkWorld (clock w) (clock_reads w) (api w) (api_calls w)
                           (random w) (random_reads w) (trace w ++ [e])).

(** [Date.now()] *)
Definition Date_now : M World N :=
  fun w => (Ret (clock w (clock_reads w)),
            mkWorld (clock w) (S (clock_reads w)) (api w) (api_calls w)
                    (random w) (random_reads w) (trace w)).

(** [Math.random()] *)
Definition Math_random : M World Q :=
  fun w => (Ret (random w (random_reads w)),
            mkWorld (clock w) (clock_reads w) (api w) (api_calls w)
                    (random w) (S (random_reads w)) (trace w)).

Section Clock.
Context {rt : Runtime}.
(** [new Date().toISOString()] *)
Definition Date_iso : M World string :=
  fun w => let (r, w') := Date_now w in
           (match r with
            | Ret ms => Ret (toISOString ms)
            | Throw e => Throw e
            | OutOfRounds => OutOfRounds
            end, w').
End Clock.

End JS.

(* ===================================================================== *)
(** ** function-registry.js                                               *)
(* ===================================================================== *)

Module FunctionRegistry.
Import JS.
Local Open Scope string_scope.
Local Open Scope js_scope.

(** The schema of one parameter, at the shape JSON Schema gives it. A field
    that is absent is [None]. *)
Record PropSchema : Type := mkProp {
  ps_type : option string;
  ps_minLength : option jsnum;
  ps_maxLength : option jsnum;
  ps_pattern : option string;
  ps_minimum : option jsnum;
  ps_maximum : option jsnum;
  ps_minItems : option jsnum;
  ps_maxItems : option jsnum;
  ps_enum : option (list jsval)
}.

(** [schema.parameters] *)
Record Parameters : Type := mkParameters {
  p_type : option string;
  p_properties : option (list (string * PropSchema));
  p_required : option (list string);
  p_additionalProperties : option bool
}.

(** An OpenAI function schema. *)
Record Schema : Type := mkSchema {
  s_name : string;
  s_description : string;
  s_parameters : option Parameters
}.

(** [null] or [undefined]: the two values that have no members. *)
Inductive Nullish : Type :=
| Null
| Undefined.

(** What a handler call does: it throws before returning, or it returns a
    value or promise that settles [ms] milliseconds after the call ([0] for
    a plain value), or it returns a promise that never settles. What it
    throws or rejects with is an error object, or [null] or [undefined]
    ([throw null], [Promise.reject()]); other values are not represented. *)
Inductive Settlement : Type :=
| Fulfil (v : jsval)
| Reject (e : JsError)
| RejectNullish (n : Nullish).

Inductive HandlerBehaviour : Type :=
| ThrowsSync (e : JsError)
| SettlesAt (ms : N) (s : Settlement)
| NeverSettles
| ThrowsNullish (n : Nullish).

Definition Handler : Type := jsval -> HandlerBehaviour.

(** The value stored in [this.functions]: [{schema, handler, name}]. *)
Record FunctionData : Type := mkFunctionData {
  fd_schema : Schema;
  fd_handler : Handler;
  fd_name : string
}.

(** [this.functions], a [Map] in insertion order. *)
Definition Registry : Type := list (string * FunctionData).

(** [new FunctionRegistry()] *)
Definition constructor : Registry := [].

(** [Map.prototype.set]: an existing key keeps its place. *)
Fixpoint Map_set {A : Type} (k : string) (v : A) (m : list (string * A)) : list (string * A) :=
  match m with
  | [] => [(k, v)]
  | (k', v') :: rest =>
      if String.eqb k k' then (k, v) :: rest else (k', v') :: Map_set k v rest
  end.

Definition Map_get {A : Type} (k : string) (m : list (string * A)) : option A := lookup k m.

Definition Map_has {A : Type} (k : string) (m : list (string * A)) : bool :=
  match lookup k m with Some _ => true | None => false end.

Definition Map_delete {A : Type} (k : string) (m : list (string * A)) : list (string * A) :=
  filter (fun kv => negb (String.eqb k (fst kv))) m.

(** [validateSchema]. The tests on the JavaScript type of [schema],
    [schema.parameters], [properties] and [required] hold by typing. *)
Definition validateSchema (schema : Schema) : bool :=
  if String.eqb (s_name schema) "" then false
  else if String.eqb (s_description schema) "" then false
  else match s_parameters schema with
       | Some parameters =>
           match p_type parameters with
           | Some t => if negb (String.eqb t "") && negb (String.eqb t "object")
                       then false else true
           | None => true
           end
       | None => true
       end.

(** [registerFunction(name, schema, handler)]; [name] is a string and
    [handler] a function by typing. *)
Definition registerFunction (name : string) (schema : Schema) (handler : Handler)
  : M Registry unit :=
  if String.eqb name "" then throw (new_Error "Function name must be a non-empty string")
  else if negb (validateSchema schema) then throw (new_Error "Invalid function schema")
  else modify (Map_set name (mkFunctionData schema handler name)).

(** [unregisterFunction(name)] *)
Definition unregisterFunction (name : string) : M Registry bool :=
  fun functions => (Ret (Map_has name functions), Map_delete name functions).

(** [registerBuiltInFunctions(schemas, handlers)]; [schemas] lists the
    [function] member of each wrapper and [handlers k] is [handlers[k]] when
    that is truthy. *)
Fixpoint registerBuiltInFunctions (schemas : list Schema) (handlers : string -> option Handler)
  : M Registry unit :=
  match schemas with
  | [] => ret tt
  | schema :: rest =>
      match handlers (s_name schema) with
      | None => throw (new_Error ("No handler found for function: " ++ s_name schema))
      | Some handler =>
          registerFunction (s_name schema) schema handler ;;;
          registerBuiltInFunctions rest handlers
      end
  end.

(** [getFunctionSchemas()] *)
Definition getFunctionSchemas (functions : Registry) : list Schema :=
  map (fun kv => fd_schema (snd kv)) functions.

(** [getRegisteredFunctions()] *)
Definition getRegisteredFunctions (functions : Registry) : list string := keys functions.

(** [hasFunction(name)] *)
Definition hasFunction (functions : Registry) (name : string) : bool := Map_has name functions.

(** *** Execution results *)

Record ErrorInfo : Type := mkErrorInfo {
  e_message : string;
  e_type : string;
  e_timestamp : string;
  e_functionName : option string;
  e_executionTime : option Z;
  e_originalError : option string
}.

Record ExecutionResult : Type := mkResult {
  success : bool;
  result : jsval;
  functionName : option string;
  timestamp : option string;
  error : option ErrorInfo;
  executionTime : option Z;
  timeout : option N
}.

(** The [metadata] argument of [formatError]. *)
Record ErrorMetadata : Type := mkMetadata {
  md_functionName : option string;
  md_executionTime : option Z;
  md_originalError : option string
}.
Definition no_metadata : ErrorMetadata := mkMetadata None None None.

Section Execution.
Context {rt : Runtime}.

(** [formatSuccess(result, functionName)] *)
Definition formatSuccess (res : jsval) (fname : string) : M World ExecutionResult :=
  ts <- Date_iso ;;
  ret (mkResult true res (Some fname) (Some ts) None None None).

(** [formatError(message, errorType, metadata)] *)
Definition formatError (message errorType : string) (metadata : ErrorMetadata)
  : M World ExecutionResult :=
  ts <- Date_iso ;;
  ret (mkResult false JNull None None
         (Some (mkErrorInfo message errorType ts (md_functionName metadata)
                  (md_executionTime metadata) (md_originalError metadata)))
         None None).

(** [{isValid, error}] *)
Inductive Validation : Type :=
| Valid
| Invalid (error : string).

Definition isValid (v : Validation) : bool :=
  match v with Valid => true | Invalid _ => false end.

(** [validateParameterType(value, expectedType)] *)
Definition validateParameterType (value : jsval) (expectedType : string) : bool :=
  match value with
  | JNull => String.eqb expectedType "null"
  | _ =>
    if String.eqb expectedType "string" then
      match value with JStr _ => true | _ => false end
    else if String.eqb expectedType "number" then
      match value with JNum (Fin _) => true | _ => false end
    else if String.eqb expectedType "integer" then
      match value with JNum (Fin q) => q_is_integer q | _ => false end
    else if String.eqb expectedType "boolean" then
      match value with JBool _ => true | _ => false end
    else if String.eqb expectedType "array" then
      match value with JArr _ => true | _ => false end
    else if String.eqb expectedType "object" then
      match value with JObj _ | JError _ _ _ _ => true | _ => false end
    else if String.eqb expectedType "null" then false
    else true
  end.

(** [value.length]: the length of a string or array, an own [length]
    property, a TypeError on null and undefined, and undefined (NaN once
    compared) otherwise; the arity of a function is not represented. *)
Definition length_of (value : jsval) : Exc jsnum :=
  match value with
  | JStr s => Ok (num_of_nat (String.length s))
  | JArr items => Ok (num_of_nat (List.length items))
  | JUndefined =>
      Raise (new_TypeError "Cannot read properties of undefined (reading 'length')")
  | JNull =>
      Raise (new_TypeError "Cannot read properties of null (reading 'length')")
  | JObj props | JError _ _ _ props =>
      Ok (match lookup "length" props with Some v => to_number v | None => NaN end)
  | _ => Ok NaN
  end.

Definition type_is (schema : PropSchema) (t : string) : bool :=
  match ps_type schema with Some t' => String.eqb t' t | None => false end.

(** One [if (bound !== undefined && test) return {isValid: false, ...}]. *)
Definition check_bound (bound : option jsnum) (violates : jsnum -> Exc bool)
  (message : jsnum -> string) (next : Exc Validation) : Exc Validation :=
  match bound with
  | None => next
  | Some b =>
      match violates b with
      | Ok true => Ok (Invalid (message b))
      | Ok false => next
      | Raise e => Raise e
      end
  end.

Definition length_lt (value : jsval) (b : jsnum) : Exc bool :=
  match length_of value with
  | Ok n => Ok (num_lt n b)
  | Raise e => Raise e
  end.

Definition length_gt (value : jsval) (b : jsnum) : Exc bool :=
  match length_of value with
  | Ok n => Ok (num_gt n b)
  | Raise e => Raise e
  end.

(** The final enum test of [validateParameterConstraints]. *)
Definition check_enum (value : jsval) (schema : PropSchema) (paramName : string)
  : Exc Validation :=
  match ps_enum schema with
  | Some allowed =>
      if negb (existsb (same_value_zero value) allowed)
      then Ok (Invalid ("Parameter '" ++ paramName ++ "' must be one of: "
                           ++ join_values ", " allowed))
      else Ok Valid
  | None => Ok Valid
  end.

Definition check_array (value : jsval) (schema : PropSchema) (paramName : string)
  : Exc Validation :=
  if type_is schema "array" then
    check_bound (ps_minItems schema) (length_lt value)
      (fun b => "Parameter '" ++ paramName ++ "' must have at least "
                  ++ num_to_string b ++ " items")
    (check_bound (ps_maxItems schema) (length_gt value)
      (fun b => "Parameter '" ++ paramName ++ "' must have at most "
                  ++ num_to_string b ++ " items")
    (check_enum value schema paramName))
  else check_enum value schema paramName.

Definition check_number (value : jsval) (schema : PropSchema) (paramName : string)
  : Exc Validation :=
  if type_is schema "number" || type_is schema "integer" then
    check_bound (ps_minimum schema) (fun b => Ok (num_lt (to_number value) b))
      (fun b => "Parameter '" ++ paramName ++ "' must be at least " ++ num_to_string b)
    (check_bound (ps_maximum schema) (fun b => Ok (num_gt (to_number value) b))
      (fun b => "Parameter '" ++ paramName ++ "' must be at most " ++ num_to_string b)
    (check_array value schema paramName))
  else check_array value schema paramName.

Definition check_pattern (value : jsval) (schema : PropSchema) (paramName : string)
  (next : Exc Validation) : Exc Validation :=
  match ps_pattern schema with
  | Some pattern =>
      if String.eqb pattern "" then next
      else match regexp_test pattern (to_string value) with
           | inr message => Raise (mkError "SyntaxError" message None None)
           | inl true => next
           | inl false =>
               Ok (Invalid ("Parameter '" ++ paramName
                               ++ "' does not match required pattern"))
           end
  | None => next
  end.

(** [validateParameterConstraints(value, schema, paramName)]: the string,
    number, array and enum blocks in source order. *)
Definition validateParameterConstraints (value : jsval) (schema : PropSchema)
  (paramName : string) : Exc Validation :=
  if type_is schema "string" then
    check_bound (ps_minLength schema) (length_lt value)
      (fun b => "Parameter '" ++ paramName ++ "' must be at least "
                  ++ num_to_string b ++ " characters long")
    (check_bound (ps_maxLength schema) (length_gt value)
      (fun b => "Parameter '" ++ paramName ++ "' must be at most "
                  ++ num_to_string b ++ " characters long")
    (check_pattern value schema paramName
    (check_number value schema paramName)))
  else check_number value schema paramName.

(** The first loop of [validateArguments]: required parameters. *)
Fixpoint check_required (required : list string) (args : jsval) : Validation :=
  match required with
  | [] => Valid
  | requiredParam :: rest =>
      if negb (js_in requiredParam args)
      then Invalid ("Missing required parameter: " ++ requiredParam)
      else check_required rest args
  end.

(** The body of the second loop, for one entry of [Object.entries(args)].
    [properties[paramName]] is an own-property lookup: a member inherited
    from [Object.prototype] has no [type], constraint or [enum] field and
    passes every test, as an absent one does. *)
Definition check_entry (properties : list (string * PropSchema))
  (paramName : string) (paramValue : jsval) : Exc Validation :=
  match lookup paramName properties with
  | Some paramSchema =>
      match ps_type paramSchema with
      | Some t =>
          if negb (String.eqb t "") && negb (validateParameterType paramValue t)
          then Ok (Invalid ("Invalid type for parameter '" ++ paramName
                               ++ "': expected " ++ t ++ ", got " ++ typeof paramValue))
          else validateParameterConstraints paramValue paramSchema paramName
      | None => validateParameterConstraints paramValue paramSchema paramName
      end
  | None => Ok Valid
  end.

Fixpoint check_entries (properties : list (string * PropSchema))
  (entries : list (string * jsval)) : Exc Validation :=
  match entries with
  | [] => Ok Valid
  | (paramName, paramValue) :: rest =>
      match check_entry properties paramName paramValue with
      | Ok Valid => check_entries properties rest
      | other => other
      end
  end.

(** The last block of [validateArguments]: unexpected parameters. *)
Definition check_additional (parameters : Parameters)
  (properties : list (string * PropSchema)) (args : jsval) : Validation :=
  match p_additionalProperties parameters with
  | Some false =>
      let allowedParams := keys properties in
      let providedParams := keys (object_entries args) in
      let unexpectedParams :=
        filter (fun param => negb (mem_string param allowedParams)) providedParams in
      match unexpectedParams with
      | [] => Valid
      | _ => Invalid ("Unexpected parameters: " ++ join ", " unexpectedParams)
      end
  | _ => Valid
  end.

(** [validateArguments(args, parameters)] *)
Definition validateArguments (args : jsval) (parameters : Parameters) : Exc Validation :=
  match p_properties parameters with
  | None => Ok Valid
  | Some properties =>
      if negb (String.eqb (typeof args) "object") || match args with JNull => true | _ => false end
      then Ok (Invalid "Arguments must be an object")
      else
        match (match p_required parameters with
               | Some required => check_required required args
               | None => Valid
               end) with
        | Invalid msg => Ok (Invalid msg)
        | Valid =>
            match check_entries properties (object_entries args) with
            | Ok Valid => Ok (check_additional parameters properties args)
            | other => other
            end
        end
  end.

(** The fixed budget of the race in [executeFunction]. *)
Definition timeoutMs : N := 5000.

(** The rejection of [timeoutPromise]. *)
Definition timeout_error : JsError :=
  new_Error "Function execution timeout after 5000ms".

(** What a [catch] block is handed: an error object, or [null] or
    [undefined]. *)
Inductive Thrown : Type :=
| ErrorObject (e : JsError)
| NullOrUndefined (n : Nullish).

(** What the handler call and the race leave the [try] block with: the value
    that won, or what was thrown. *)
Inductive Raced : Type :=
| Won (v : jsval)
| Lost (error : Thrown).

(** [functionData.handler(args)] and
    [await Promise.race([executionPromise, timeoutPromise])]: a handler that
    throws leaves at once; otherwise the handler wins when it settles before
    the timer fires, and the timer, started first, wins otherwise. *)
Definition race (b : HandlerBehaviour) : Raced :=
  match b with
  | ThrowsSync e => Lost (ErrorObject e)
  | ThrowsNullish n => Lost (NullOrUndefined n)
  | SettlesAt ms s =>
      if N.ltb ms timeoutMs
      then match s with
           | Fulfil v => Won v
           | Reject e => Lost (ErrorObject e)
           | RejectNullish n => Lost (NullOrUndefined n)
           end
      else Lost (ErrorObject timeout_error)
  | NeverSettles => Lost (ErrorObject timeout_error)
  end.

(** The handler throws before [Promise.race] is called. The timer is then
    left running with nothing awaiting its promise. *)
Definition throws_sync (b : HandlerBehaviour) : bool :=
  match b with
  | ThrowsSync _ | ThrowsNullish _ => true
  | _ => false
  end.

Definition nullish_text (n : Nullish) : string :=
  match n with Null => "null" | Undefined => "undefined" end.

(** The TypeError of reading [member] from [null] or [undefined]. *)
Definition read_of_nullish (n : Nullish) (member : string) : JsError :=
  new_TypeError ("Cannot read properties of " ++ nullish_text n
                   ++ " (reading '" ++ member ++ "')").

(** [error.message] and [error.name] in a [catch] block. *)
Definition message_of (error : Thrown) : Exc string :=
  match error with
  | ErrorObject e => Ok (err_message e)
  | NullOrUndefined n => Raise (read_of_nullish n "message")
  end.

Definition name_of (error : Thrown) : Exc string :=
  match error with
  | ErrorObject e => Ok (err_name e)
  | NullOrUndefined n => Raise (read_of_nullish n "name")
  end.

(** [try { c } catch (error) { h error }] around code that may throw [null]
    or [undefined]: [c] hands over its value as [inl] and such a thrown value
    as [inr]; an error object it throws is thrown in the monad. *)
Definition try_catch_any {S A} (c : M S (A + Nullish)) (h : Thrown -> M S A) : M S A :=
  fun s => match c s with
           | (Ret (inl a), s') => (Ret a, s')
           | (Ret (inr n), s') => h (NullOrUndefined n) s'
           | (Throw e, s') => h (ErrorObject e) s'
           | (OutOfRounds, s') => (OutOfRounds, s')
           end.

(** The default [args = {}] of a parameter left undefined. *)
Definition default_args (args : jsval) : jsval :=
  match args with JUndefined => JObj [] | _ => args end.

(** [executeFunction(name, args)] *)
Definition executeFunction (functions : Registry) (name : string) (args0 : jsval)
  : M World ExecutionResult :=
  let args := default_args args0 in
  match Map_get name functions with
  | None => formatError ("Function '" ++ name ++ "' not found") "FUNCTION_NOT_FOUND" no_metadata
  | Some functionData =>
      try_catch_any
        (validationResult <-
           match s_parameters (fd_schema functionData) with
           | Some parameters => pure (validateArguments args parameters)
           | None => ret Valid
           end ;;
         match validationResult with
         | Invalid msg =>
             r <- formatError msg "VALIDATION_ERROR" no_metadata ;;
             ret (inl r)
         | Valid =>
             log (EvTimerSet timeoutMs) ;;;
             log (EvHandlerCall name args) ;;;
             (if throws_sync (fd_handler functionData args)
              then log (EvTimerUnawaited timeoutMs) else ret tt) ;;;
             match race (fd_handler functionData args) with
             | Won res =>
                 r <- formatSuccess res name ;;
                 ret (inl r)
             | Lost (ErrorObject e) => throw e
             | Lost (NullOrUndefined n) => ret (inr n)
             end
         end)
        (fun error =>
           message <- pure (message_of error) ;;
           originalError <- pure (name_of error) ;;
           formatError ("Function execution failed: " ++ message)
             "EXECUTION_ERROR" (mkMetadata (Some name) None (Some originalError)))
  end.

(** Whether [JSON.stringify(v)] throws: on a BigInt anywhere in the arrays
    and own enumerable properties it walks. Functions, symbols and undefined
    are skipped or printed as null, they do not make it throw. *)
Fixpoint stringify_throws (v : jsval) : bool :=
  match v with
  | JBigInt _ => true
  | JArr items => existsb stringify_throws items
  | JObj props => existsb (fun kv => stringify_throws (snd kv)) props
  | JError _ _ _ props => existsb (fun kv => stringify_throws (snd kv)) props
  | _ => false
  end.

Definition is_function (v : jsval) : bool :=
  match v with JFunction _ => true | _ => false end.

(** The [reduce] over [Object.getOwnPropertyNames(result)]: a property whose
    value is a function is dropped. *)
Definition collect (entries : list (string * (bool * jsval))) : list (string * jsval) :=
  flat_map (fun e : string * (bool * jsval) =>
              if fst (snd e) then [] else [(fst e, snd (snd e))]) entries.

(** [sanitizeResult(result)] *)
Fixpoint sanitizeResult (res : jsval) : jsval :=
  if negb (stringify_throws res) then res
  else
    match res with
    | JFunction _ => JStr "[Function]"
    | JUndefined => JNull
    | JSymbol d => JStr ("Symbol(" ++ d ++ ")")
    | JError ename emessage estack _ =>
        JObj [("error", JBool true); ("message", JStr emessage);
              ("name", JStr ename); ("stack", JStr estack)]
    | JObj props =>
        JObj (collect (map (fun kv => (fst kv, (is_function (snd kv), sanitizeResult (snd kv))))
                           props))
    | JArr items =>
        let sanitized := map (fun v => (is_function v, sanitizeResult v)) items in
        JObj (collect (combine (map nat_to_string (seq 0 (List.length items))) sanitized)
                ++ [("length", JNum (num_of_nat (List.length items)))])%list
    | JBigInt _ => JObj []
    | other => other   (* JSON.stringify accepts these: the catch block is not entered *)
    end.

(** The [options] of [executeFunctionSafely]; an absent member is [None]. *)
Record SafeOptions : Type := mkSafeOptions {
  o_timeout : option N;
  o_sanitizeResults : option bool
}.
Definition no_options : SafeOptions := mkSafeOptions None None.

Definition or_default {A} (o : option A) (d : A) : A :=
  match o with Some a => a | None => d end.

(** [executeFunctionSafely(name, args, options)] *)
Definition executeFunctionSafely (functions : Registry) (name : string) (args : jsval)
  (options : SafeOptions) : M World ExecutionResult :=
  let timeout := or_default (o_timeout options) 5000%N in
  let sanitizeResults := or_default (o_sanitizeResults options) true in
  startTime <- Date_now ;;
  try_catch
    (r <- executeFunction functions name args ;;
     let r1 := if success r && sanitizeResults
               then mkResult (success r) (sanitizeResult (result r)) (functionName r)
                             (timestamp r) (error r) (executionTime r) (FunctionRegistry.timeout r)
               else r in
     now <- Date_now ;;
     ret (mkResult (success r1) (result r1) (functionName r1) (timestamp r1) (error r1)
            (Some (Z.of_N now - Z.of_N startTime)%Z) (Some timeout)))
    (fun error =>
       now <- Date_now ;;
       formatError ("Unexpected error during function execution: " ++ err_message error)
         "UNEXPECTED_ERROR"
         (mkMetadata (Some name) (Some (Z.of_N now - Z.of_N startTime)%Z)
            (Some (err_name error)))).

End Execution.

End FunctionRegistry.

(* ===================================================================== *)
(** ** openai-client.js                                                   *)
(* ===================================================================== *)

Module OpenAIClient.
Import JS.
Local Open Scope string_scope.
Local Open Scope js_scope.

(** One entry of the [messages] array of a request, and of the transcript. *)
Record Message : Type := mkMessage {
  role : string;
  content : string;
  timestamp : option string;
  function_call : option FunctionCall;
  name : option string
}.

Record Config : Type := mkConfig {
  model : string;
  temperature : jsnum;
  maxTokens : jsnum
}.

(** The fields of the class: [client] is [true] once [initialize] has stored
    an SDK client in [this.client]. *)
Record Client : Type := mkClient {
  client : bool;
  config : Config
}.

(** [new OpenAIClient()] *)
Definition constructor : Client :=
  mkClient false (mkConfig "gpt-4" (Fin (7 # 10)) (Fin (inject_Z 1000))).

(** [isReady()] *)
Definition isReady (c : Client) : bool := client c.

Definition status_is (error : JsError) (s : Z) : bool :=
  match err_status error with Some s' => Z.eqb s' s | None => false end.

Definition code_is (error : JsError) (c : string) : bool :=
  match err_code error with Some c' => String.eqb c' c | None => false end.

(** [_shouldNotRetry(error)] *)
Definition _shouldNotRetry (error : JsError) : bool :=
  if status_is error 401 || status_is error 403 then true
  else if status_is error 400 then true
  else if status_is error 404 then true
  else false.

Definition newline : string := String (ascii_of_nat 10) "".

(** [error.message || fallback] *)
Definition message_or (error : JsError) (fallback : string) : string :=
  if String.eqb (err_message error) "" then fallback else err_message error.

(** [_handleApiError(error)] *)
Definition _handleApiError (error : JsError) : JsError :=
  if status_is error 401 then
    new_Error ("Authentication failed: Invalid API key. Please check your OpenAI API key."
                 ++ newline
                 ++ "You can find your API key at: https://platform.openai.com/api-keys")
  else if status_is error 429 then
    new_Error "Rate limit exceeded: Too many requests to OpenAI API. Please wait before making more requests."
  else if status_is error 400 then
    new_Error ("Bad request: " ++ message_or error "Invalid request parameters")
  else if status_is error 403 then
    new_Error "Access forbidden: Your API key may not have the required permissions or your account may have insufficient credits."
  else if status_is error 404 then
    new_Error "Model not found: The specified model is not available. Please check the model name."
  else if status_is error 500 || status_is error 502 || status_is error 503 then
    new_Error "OpenAI server error: The service is temporarily unavailable. Please try again later."
  else if code_is error "ENOTFOUND" || code_is error "ECONNREFUSED" || code_is error "ETIMEDOUT" then
    new_Error "Network error: Unable to connect to OpenAI API. Please check your internet connection."
  else
    new_Error ("OpenAI API request failed: " ++ message_or error "Unknown error").

(** [_sleep(ms)] *)
Definition _sleep (ms : Q) : M World unit := log (EvSleep ms).

(** [Math.pow(2, attempt) * 1000] *)
Definition baseDelay (attempt : nat) : Q := inject_Z (2 ^ Z.of_nat attempt * 1000).

(** The [for] loop of [_executeWithRetry], [n] iterations from [attempt] on;
    the statement after the loop is the case [n = 0]. *)
Fixpoint retry_loop {A : Type} (requestFn : M World A) (maxRetries : nat)
  (n attempt : nat) (lastError : option JsError) : M World A :=
  match n with
  | O =>
      match lastError with
      | Some e => throw (_handleApiError e)
      | None => throw (new_TypeError "Cannot read properties of undefined (reading 'status')")
      end
  | S n' =>
      try_catch requestFn
        (fun error =>
           if _shouldNotRetry error then throw (_handleApiError error)
           else if Nat.eqb attempt maxRetries then throw (_handleApiError error)
           else
             r <- Math_random ;;
             let jitter := (r * inject_Z 1000)%Q in
             let delay := (baseDelay attempt + jitter)%Q in
             _sleep delay ;;;
             retry_loop requestFn maxRetries n' (S attempt) (Some error))
  end.

(** [_executeWithRetry(requestFn, maxRetries = 3)] *)
Definition _executeWithRetry {A : Type} (requestFn : M World A) (maxRetries : nat)
  : M World A :=
  retry_loop requestFn maxRetries (S maxRetries) 0 None.

(** [this.client.chat.completions.create(requestParams)]: consumes the next
    outcome of the endpoint. *)
Definition completions_create (messages : list Message) : M World Response :=
  fun w =>
    let w' := mkWorld (clock w) (clock_reads w) (api w) (S (api_calls w))
                (random w) (random_reads w)
                (trace w ++ [EvApiCall (map (fun m => (role m, content m)) messages)])%list in
    match api w (api_calls w) with
    | ApiOk r => (Ret r, w')
    | ApiFail e => (Throw e, w')
    end.

(** The test [!message.role || !message.content] of the validation loop. *)
Definition lacks_role_or_content (m : Message) : bool :=
  String.eqb (role m) "" || String.eqb (content m) "".

(** [createChatCompletion(messages, functions, options)]. The request
    parameters other than [messages] do not influence what the code does with
    the outcome and are not recorded. *)
Definition createChatCompletion (c : Client) (messages : list Message) : M World Response :=
  if negb (client c) then
    throw (new_Error "OpenAI client is not initialized. Call initialize() first.")
  else match messages with
       | [] => throw (new_Error "Messages must be a non-empty array")
       | _ =>
           if existsb lacks_role_or_content messages then
             throw (new_Error "Each message must have role and content properties")
           else _executeWithRetry (completions_create messages) 3
       end.

End OpenAIClient.

(* ===================================================================== *)
(** ** chat-manager.js                                                    *)
(* ===================================================================== *)

Module ChatManager.
Import JS.
Import OpenAIClient.
Local Open Scope string_scope.
Local Open Scope js_scope.

(** The fields of the class. [maxHistoryLength] and [maxTokensPerMessage]
    are only ever assigned the constants below. *)
Record ChatManager : Type := mkChatManager {
  openaiClient : OpenAIClient.Client;
  functionRegistry : FunctionRegistry.Registry;
  messageHistory : list Message;
  systemMessage : Message
}.

Definition maxHistoryLength : nat := 20.
Definition maxTokensPerMessage : nat := 4000.

(** The state of the code of this class: the object and the world. *)
Definition St : Type := (ChatManager * World)%type.

Definition set_history (h : list Message) (cm : ChatManager) : ChatManager :=
  mkChatManager (openaiClient cm) (functionRegistry cm) h (systemMessage cm).

Definition system_message (text : string) : Message :=
  mkMessage "system" text None None None.

(** [new ChatManager(openaiClient, functionRegistry)] *)
Definition constructor (c : OpenAIClient.Client) (r : FunctionRegistry.Registry)
  : ChatManager :=
  let sys := system_message
    "You are a helpful AI assistant. You can use the available functions to help users with various tasks." in
  mkChatManager c r [sys] sys.

(** [startConversation(systemPrompt)]; [None] is the default [null]. *)
Definition startConversation (systemPrompt : option string) (cm : ChatManager)
  : ChatManager :=
  let systemContent :=
    match systemPrompt with
    | Some p => if String.eqb p "" then content (systemMessage cm) else p
    | None => content (systemMessage cm)
    end in
  let sys := system_message systemContent in
  mkChatManager (openaiClient cm) (functionRegistry cm) [sys] sys.

(** [arr.slice(start)] *)
Definition slice_from {A : Type} (start : Z) (l : list A) : list A :=
  let len := Z.of_nat (List.length l) in
  let k := if (start <? 0)%Z then Z.max (len + start) 0 else Z.min start len in
  skipn (Z.to_nat k) l.

(** [trimHistory()] *)
Definition trimHistory (history : list Message) : list Message :=
  if Nat.leb (List.length history) maxHistoryLength then history
  else match history with
       | systemMessage :: _ =>
           let recentMessages :=
             slice_from (- Z.of_nat maxHistoryLength + 1) history in
           systemMessage :: recentMessages
       | [] => history
       end.

(** The [metadata] of [addToHistory]. *)
Record Metadata : Type := mkMeta {
  m_function_call : option FunctionCall;
  m_name : option string
}.
Definition no_meta : Metadata := mkMeta None None.

Definition validRoles : list string := ["user"; "assistant"; "system"; "function"].

Section Orchestration.
Context {rt : Runtime}.

(** [addToHistory(role, content, metadata)] *)
Definition addToHistory (role : string) (content : jsval) (metadata : Metadata)
  : M St unit :=
  if negb (mem_string role validRoles) then
    throw (new_Error ("Invalid message role: " ++ role ++ ". Must be one of: "
                        ++ join ", " validRoles))
  else match content with
       | JStr text =>
           ts <- lift_world Date_iso ;;
           let message := mkMessage role text (Some ts)
                            (m_function_call metadata) (m_name metadata) in
           modify (fun s : St =>
                     (set_history (trimHistory (messageHistory (fst s) ++ [message])%list)
                                  (fst s), snd s))
       | _ => throw (new_Error "Message content must be a string")
       end.


(** [getFormattedHistory()] *)
Definition getFormattedHistory (cm : ChatManager) : list Message :=
  map (fun msg =>
         mkMessage (role msg) (content msg) None (function_call msg)
           (if String.eqb (role msg) "function"
            then match name msg with
                 | Some n => if String.eqb n "" then None else Some n
                 | None => None
                 end
            else None))
      (messageHistory cm).

(** [Math.ceil(n / 4)] *)
Definition ceil_div4 (n : nat) : nat := Nat.div (n + 3) 4.

(** [estimateTokenCount(messages)] *)
Definition estimateTokenCount (messages : list Message) : nat :=
  fold_left
    (fun totalTokens message =>
       let contentTokens := ceil_div4 (String.length (content message)) in
       let total := totalTokens + (contentTokens + 10) in
       match function_call message with
       | Some fc =>
           total + ceil_div4 (JSON_function_call_length (fc_name fc) (fc_arguments fc))
       | None => total
       end)
    messages 0.

Definition is_system (msg : Message) : bool := String.eqb (role msg) "system".

(** The backwards loop of [trimToTokenLimit] over [otherMessages] reversed:
    each message that still fits is put in front ([unshift]). *)
Fixpoint take_recent (reversed : list Message) (maxTokens currentTokens : nat)
  (trimmedMessages : list Message) : list Message :=
  match reversed with
  | [] => trimmedMessages
  | message :: older =>
      let messageTokens := estimateTokenCount [message] in
      if Nat.leb (currentTokens + messageTokens) maxTokens
      then take_recent older maxTokens (currentTokens + messageTokens)
             (message :: trimmedMessages)
      else trimmedMessages
  end.

(** [findIndex] and [splice(i, 1)] followed by [unshift]: the first system
    message moves to the front. *)
Fixpoint remove_first (p : Message -> bool) (l : list Message) : list Message :=
  match l with
  | [] => []
  | m :: rest => if p m then rest else m :: remove_first p rest
  end.

Definition system_first (l : list Message) : list Message :=
  match l with
  | [] => []
  | m :: _ =>
      if is_system m then l
      else match find is_system l with
           | Some sys => sys :: remove_first is_system l
           | None => l
           end
  end.

(** [trimToTokenLimit(messages, maxTokens)] *)
Definition trimToTokenLimit (messages : list Message) (maxTokens : nat) : list Message :=
  match messages with
  | [] => messages
  | _ =>
      let systemMessage := find is_system messages in
      let otherMessages := filter (fun msg => negb (is_system msg)) messages in
      let currentTokens :=
        match systemMessage with Some sys => estimateTokenCount [sys] | None => 0 end in
      let trimmedMessages :=
        match systemMessage with Some sys => [sys] | None => [] end in
      let trimmed := take_recent (rev otherMessages) maxTokens currentTokens trimmedMessages in
      match systemMessage with
      | Some _ => system_first trimmed
      | None => trimmed
      end
  end.

(** [clearHistory()] *)
Definition clearHistory (cm : ChatManager) : ChatManager :=
  set_history (match find is_system (messageHistory cm) with
               | Some sys => [sys]
               | None => []
               end) cm.

(** *** The response envelope *)

Record EnvelopeError : Type := mkEnvelopeError {
  ee_type : string;
  ee_message : string;
  ee_functionName : option string;
  ee_timestamp : string
}.

Record Envelope : Type := mkEnvelope {
  env_success : bool;
  env_message : string;
  env_error : option EnvelopeError;
  env_requiresFunctionCall : bool;
  env_usage : option jsval;
  env_model : option string;
  env_finishReason : option string
}.

(** [String.prototype.trim] strips white space and line terminators from
    both ends. Among the code units a string holds here (those below 256)
    these are U+0009 to U+000D, U+0020 and U+00A0; the others the language
    lists (U+1680, U+2000 to U+200A, U+2028, U+2029, U+202F, U+205F, U+3000,
    U+FEFF) lie above. *)
Definition is_space (c : ascii) : bool :=
  let n := nat_of_ascii c in
  Nat.eqb n 9 || Nat.eqb n 10 || Nat.eqb n 11 || Nat.eqb n 12 || Nat.eqb n 13
  || Nat.eqb n 32 || Nat.eqb n 160.

Fixpoint trim_start (s : string) : string :=
  match s with
  | EmptyString => EmptyString
  | String c rest => if is_space c then trim_start rest else s
  end.

Fixpoint trim_end (s : string) : string :=
  match s with
  | EmptyString => EmptyString
  | String c rest =>
      let rest' := trim_end rest in
      if is_space c && String.eqb rest' "" then EmptyString else String c rest'
  end.

Definition trim (s : string) : string := trim_end (trim_start s).

(** [formatFunctionResult(functionResult, functionName)] *)
Definition formatFunctionResult (functionResult : FunctionRegistry.ExecutionResult)
  (functionName : string) : Exc string :=
  if FunctionRegistry.success functionResult then
    let result := FunctionRegistry.result functionResult in
    match result with
    | JStr s => Ok s
    | JArr _ | JObj _ | JError _ _ _ _ =>
        if FunctionRegistry.stringify_throws result
        then Raise (new_TypeError "Do not know how to serialize a BigInt")
        else Ok (JSON_pretty result)
    | _ => Ok (to_string result)
    end
  else
    match FunctionRegistry.error functionResult with
    | Some error =>
        Ok ("Error executing " ++ functionName ++ ": " ++ FunctionRegistry.e_message error
               ++ " (Type: " ++ FunctionRegistry.e_type error ++ ")")
    | None => Raise (new_TypeError "Cannot read properties of null (reading 'message')")
    end.

Definition the_registry : M St FunctionRegistry.Registry :=
  fun s => (Ret (functionRegistry (fst s)), s).
Definition the_object : M St ChatManager := fun s => (Ret (fst s), s).

(** [getFinalResponseAfterFunction()], given the [processOpenAIResponse] it
    calls on the new completion. *)
Definition getFinalResponseAfterFunction_with
  (processResponse : Response -> M St Envelope) : M St Envelope :=
  try_catch
    (this <- the_object ;;
     let messages := getFormattedHistory this in
     response <- lift_world (createChatCompletion (openaiClient this) messages) ;;
     processResponse response)
    (fun error =>
       throw (new_Error ("Failed to get final response after function execution: "
                           ++ err_message error))).

(** The options of the one call site of [executeFunctionSafely] in
    [handleFunctionCall]. *)
Definition call_options : FunctionRegistry.SafeOptions :=
  FunctionRegistry.mkSafeOptions (Some 10000%N) (Some true).

(** The outer [catch] block of [handleFunctionCall]. *)
Definition function_call_failed_with (processResponse : Response -> M St Envelope)
  (name : string) (error : JsError) : M St Envelope :=
  let errorMessage := "Function execution failed: " ++ err_message error in
  addToHistory "function" (JStr errorMessage) (mkMeta None (Some name)) ;;;
  try_catch
    (getFinalResponseAfterFunction_with processResponse)
    (fun finalError =>
       ts <- lift_world Date_iso ;;
       ret (mkEnvelope false
              ("I encountered an error while executing the function: "
                 ++ err_message error)
              (Some (mkEnvelopeError "FUNCTION_EXECUTION_ERROR" (err_message error)
                       (Some name) ts))
              false None None None)).

(** The outer [try] block of [handleFunctionCall]. *)
Definition function_call_round_with (processResponse : Response -> M St Envelope)
  (functionCall : FunctionCall) : M St Envelope :=
  let name := fc_name functionCall in
  let argsString := fc_arguments functionCall in
  addToHistory "assistant" (JStr "") (mkMeta (Some functionCall) None) ;;;
  match (if String.eqb argsString "" then inl (JObj []) else JSON_parse argsString) with
  | inr parseError =>
      let errorMessage := "Failed to parse function arguments: " ++ parseError in
      addToHistory "function" (JStr errorMessage) (mkMeta None (Some name)) ;;;
      getFinalResponseAfterFunction_with processResponse
  | inl functionArgs =>
      registry <- the_registry ;;
      functionResult <-
        lift_world (FunctionRegistry.executeFunctionSafely registry name functionArgs
                      call_options) ;;
      resultMessage <- pure (formatFunctionResult functionResult name) ;;
      addToHistory "function" (JStr resultMessage) (mkMeta None (Some name)) ;;;
      getFinalResponseAfterFunction_with processResponse
  end.

(** [handleFunctionCall(functionCall)], given the [processOpenAIResponse]
    that [getFinalResponseAfterFunction] calls. *)
Definition handleFunctionCall_with (processResponse : Response -> M St Envelope)
  (functionCall : FunctionCall) : M St Envelope :=
  try_catch
    (function_call_round_with processResponse functionCall)
    (function_call_failed_with processResponse (fc_name functionCall)).

(** [processOpenAIResponse(response)]. [rounds] bounds the number of nested
    function-call rounds the model follows; the source has no bound, and a
    run that needs more rounds ends here as [OutOfRounds]. *)
Fixpoint processOpenAIResponse (rounds : nat) (response : Response) : M St Envelope :=
  try_catch
    (match r_function_call response with
     | Some functionCall =>
         match rounds with
         | O => out_of_rounds
         | S rounds' =>
             handleFunctionCall_with (processOpenAIResponse rounds') functionCall
         end
     | None =>
         let assistantMessage := r_content response in
         addToHistory "assistant" assistantMessage no_meta ;;;
         ret (mkEnvelope true (to_string assistantMessage) None false
                (Some (r_usage response)) (Some (r_model response))
                (Some (r_finish_reason response)))
     end)
    (fun error =>
       throw (new_Error ("Failed to process OpenAI response: " ++ err_message error))).

Definition handleFunctionCall (rounds : nat) : FunctionCall -> M St Envelope :=
  handleFunctionCall_with (processOpenAIResponse rounds).

Definition getFinalResponseAfterFunction (rounds : nat) : M St Envelope :=
  getFinalResponseAfterFunction_with (processOpenAIResponse rounds).

(** The [options] of [processMessage], defaults filled in. *)
Record ProcessOptions : Type := mkProcessOptions {
  includeHistory : bool;
  maxTokens : option nat;
  temperature : option jsnum
}.
Definition default_options : ProcessOptions := mkProcessOptions true None None.

(** The test [!userInput || typeof userInput !== 'string' ||
    userInput.trim().length === 0]. *)
Definition invalid_input (userInput : jsval) : bool :=
  negb (truthy userInput)
  || match userInput with
     | JStr s => Nat.eqb (String.length (trim s)) 0
     | _ => true
     end.

Definition input_text (userInput : jsval) : string :=
  match userInput with JStr s => trim s | _ => "" end.

(** The [try] block of [processMessage]. *)
Definition process_turn (rounds : nat) (userInput : jsval) (opts : ProcessOptions)
  : M St Envelope :=
  if invalid_input userInput then
    throw (new_Error "User input must be a non-empty string")
  else
    this <- the_object ;;
    if negb (isReady (openaiClient this)) then
      throw (new_Error "OpenAI client is not initialized")
    else
      addToHistory "user" (JStr (input_text userInput)) no_meta ;;;
      this <- the_object ;;
      let messages :=
        if includeHistory opts then getFormattedHistory this
        else [systemMessage this;
              mkMessage "user" (input_text userInput) None None None] in
      let messages :=
        match maxTokens opts with
        | Some (S n) => trimToTokenLimit messages (S n)
        | _ => messages
        end in
      response <- lift_world (createChatCompletion (openaiClient this) messages) ;;
      processOpenAIResponse rounds response.

(** The [catch] block of [processMessage]. *)
Definition processing_failed (error : JsError) : M St Envelope :=
  ts <- lift_world Date_iso ;;
  let errorResponse :=
    mkEnvelope false ("I encountered an error: " ++ err_message error)
      (Some (mkEnvelopeError "PROCESSING_ERROR" (err_message error) None ts))
      false None None None in
  addToHistory "assistant" (JStr (env_message errorResponse)) no_meta ;;;
  ret errorResponse.

(** [processMessage(userInput, options)]; the [options] argument [None] is
    [null], which the destructuring in the first statement refuses. *)
Definition processMessage (rounds : nat) (userInput : jsval)
  (options : option ProcessOptions) : M St Envelope :=
  match options with
  | None =>
      throw (new_TypeError "Cannot read properties of null (reading 'includeHistory')")
  | Some opts => try_catch (process_turn rounds userInput opts) processing_failed
  end.

(** [generateResponse(userInput, options)] *)
Definition generateResponse (rounds : nat) (userInput : jsval)
  (options : option ProcessOptions) : M St Envelope :=
  this <- the_object ;;
  let originalHistory := messageHistory this in
  try_catch
    (response <- processMessage rounds userInput options ;;
     modify (fun s : St => (set_history originalHistory (fst s), snd s)) ;;;
     ret response)
    (fun error =>
       modify (fun s : St => (set_history originalHistory (fst s), snd s)) ;;;
       throw error).




(** [cleanup()] *)
Definition cleanup (cm : ChatManager) : ChatManager := set_history [] cm.

(** One element of the array [processMessageBatch] returns: the envelope of
    [processMessage], or the object built in the [catch] block. *)
Inductive BatchResponse : Type :=
| Processed (response : Envelope)
| BatchFailed (message : string) (error_message : string) (originalMessage : jsval).

(** The pause [await new Promise(resolve => setTimeout(resolve, 100))]. *)
Definition batch_pause : M St unit := lift_world (log (EvSleep (inject_Z 100))).

(** [processMessageBatch(messages, options)] *)
Fixpoint processMessageBatch (rounds : nat) (messages : list jsval)
  (options : option ProcessOptions) : M St (list BatchResponse) :=
  match messages with
  | [] => ret []
  | message :: rest =>
      item <-
        try_catch
          (response <- processMessage rounds message options ;;
           batch_pause ;;;
           ret (Processed response))
          (fun error =>
             ret (BatchFailed ("Error processing message: " ++ err_message error)
                    (err_message error) message)) ;;
      responses <- processMessageBatch rounds rest options ;;
      ret (item :: responses)
  end.

(** The [context] of [continueConversation], defaults filled in;
    [ctx_message] is [context.message]. *)
Record Context : Type := mkContext {
  preserveContext : bool;
  addContextMessage : bool;
  ctx_message : jsval
}.

(** [continueConversation(followUpInput, context)] *)
Definition continueConversation (rounds : nat) (followUpInput : jsval) (context : Context)
  : M St Envelope :=
  (if addContextMessage context && truthy (ctx_message context)
   then addToHistory "system" (ctx_message context) no_meta
   else ret tt) ;;;
  processMessage rounds followUpInput
    (Some (mkProcessOptions (preserveContext context) None None)).

(** [{isValid, error}] of [validateFunctionCall]. *)
Inductive CallValidation : Type :=
| CallValid
| CallInvalid (error : string).

(** [validateFunctionCall(functionCall)]; the call is an object by typing. *)
Definition validateFunctionCall (cm : ChatManager) (functionCall : FunctionCall)
  : CallValidation :=
  if String.eqb (fc_name functionCall) "" then
    CallInvalid "Function call must have a valid name"
  else if negb (FunctionRegistry.hasFunction (functionRegistry cm) (fc_name functionCall)) then
    CallInvalid ("Function '" ++ fc_name functionCall ++ "' is not registered")
  else if String.eqb (fc_arguments functionCall) "" then CallValid
  else match JSON_parse (fc_arguments functionCall) with
       | inl _ => CallValid
       | inr message => CallInvalid ("Invalid function arguments JSON: " ++ message)
       end.

(** The [error] member of one result of [executeFunctionSequence]: absent or
    null, a text, or the error object of the registry. *)
Inductive SequenceError : Type :=
| NoError
| ErrorText (message : string)
| ErrorObject (error : FunctionRegistry.ErrorInfo).

Record SequenceResult : Type := mkSequenceResult {
  sr_success : bool;
  sr_functionName : string;
  sr_result : jsval;
  sr_error : SequenceError
}.

(** The body of the loop of [executeFunctionSequence], for one call. *)
Definition execute_one (functionCall : FunctionCall) : M St SequenceResult :=
  try_catch
    (this <- the_object ;;
     match validateFunctionCall this functionCall with
     | CallInvalid error =>
         ret (mkSequenceResult false (fc_name functionCall) JUndefined (ErrorText error))
     | CallValid =>
         args <- pure (if String.eqb (fc_arguments functionCall) "" then Ok (JObj [])
                       else match JSON_parse (fc_arguments functionCall) with
                            | inl v => Ok v
                            | inr message => Raise (mkError "SyntaxError" message None None)
                            end) ;;
         r <- lift_world (FunctionRegistry.executeFunctionSafely (functionRegistry this)
                            (fc_name functionCall) args FunctionRegistry.no_options) ;;
         ret (mkSequenceResult (FunctionRegistry.success r) (fc_name functionCall)
                (FunctionRegistry.result r)
                (match FunctionRegistry.error r with
                 | Some e => ErrorObject e
                 | None => NoError
                 end))
     end)
    (fun error =>
       ret (mkSequenceResult false (fc_name functionCall) JUndefined
              (ErrorText (err_message error)))).

(** [executeFunctionSequence(functionCalls)] *)
Fixpoint executeFunctionSequence (functionCalls : list FunctionCall)
  : M St (list SequenceResult) :=
  match functionCalls with
  | [] => ret []
  | functionCall :: rest =>
      r <- execute_one functionCall ;;
      results <- executeFunctionSequence rest ;;
      ret (r :: results)
  end.

End Orchestration.

End ChatManager.

(* ===================================================================== *)
(** ** openai-client.js: configuration and initialisation                 *)
(* ===================================================================== *)

Module OpenAIClientSetup.
Import JS.
Import OpenAIClient.
Local Open Scope string_scope.
Local Open Scope js_scope.

(** The members an [options] or [newConfig] object gives; [None] is a member
    that is absent. *)
Record ConfigPatch : Type := mkPatch {
  patch_model : option string;
  patch_temperature : option jsnum;
  patch_maxTokens : option jsnum
}.

(** [{...this.config, ...newConfig}] *)
Definition merge (config : Config) (patch : ConfigPatch) : Config :=
  mkConfig
    (match patch_model patch with Some m => m | None => model config end)
    (match patch_temperature patch with Some t => t | None => temperature config end)
    (match patch_maxTokens patch with Some n => n | None => maxTokens config end).

(** [_validateConfig()]; the members are a string and two numbers by
    typing. *)
Definition _validateConfig (config : Config) : Exc unit :=
  if Nat.eqb (String.length (ChatManager.trim (model config))) 0 then
    Raise (new_Error "Model must be a non-empty string")
  else if num_lt (temperature config) (Fin 0) || num_gt (temperature config) (Fin (inject_Z 2)) then
    Raise (new_Error "Temperature must be a number between 0 and 2")
  else if num_lt (maxTokens config) (Fin 1) || num_gt (maxTokens config) (Fin (inject_Z 4096)) then
    Raise (new_Error "Max tokens must be a number between 1 and 4096")
  else Ok tt.

(** [getConfig()] *)
Definition getConfig (c : Client) : Config := config c.

(** [updateConfig(newConfig)]: the merged configuration is stored, then
    validated. *)
Definition updateConfig (newConfig : ConfigPatch) : M Client unit :=
  modify (fun c => mkClient (client c) (merge (config c) newConfig)) ;;;
  c <- get ;;
  pure (_validateConfig (config c)).

(** [getClient()]; the value is whether an SDK client is returned. *)
Definition getClient (c : Client) : Exc unit :=
  if client c then Ok tt
  else Raise (new_Error "OpenAI client is not initialized. Call initialize() first.").

(** [_handleAuthenticationError(error)] *)
Definition _handleAuthenticationError (error : JsError) : JsError :=
  if status_is error 401 then
    new_Error ("Authentication failed: Invalid API key. Please check your OpenAI API key and try again."
                 ++ newline
                 ++ "You can find your API key at: https://platform.openai.com/api-keys")
  else if status_is error 429 then
    new_Error "Rate limit exceeded: Too many requests. Please wait a moment and try again."
  else if status_is error 403 then
    new_Error "Access forbidden: Your API key may not have the required permissions or your account may have insufficient credits."
  else if code_is error "ENOTFOUND" || code_is error "ECONNREFUSED" then
    new_Error "Network error: Unable to connect to OpenAI API. Please check your internet connection."
  else
    new_Error ("OpenAI client initialization failed: " ++ err_message error).

(** [_validateApiKey()], given the outcome of [this.client.models.list()]:
    [None] when the request succeeds, the error it rejects with otherwise. *)
Definition _validateApiKey (listing : option JsError) : Exc unit :=
  match listing with
  | None => Ok tt
  | Some error => Raise (new_Error ("API key validation failed: " ++ err_message error))
  end.

Definition double_quote : string := String (ascii_of_nat 34) "".

(** The first test of [initialize]: [!apiKey || typeof apiKey !== 'string'
    || apiKey.trim().length === 0]. *)
Definition key_missing (apiKey : jsval) : bool :=
  negb (truthy apiKey)
  || match apiKey with
     | JStr s => Nat.eqb (String.length (ChatManager.trim s)) 0
     | _ => true
     end.

(** [initialize(apiKey, options)], given the outcome of the request that
    tests the key. The constructor of the SDK client does not throw. *)
Definition initialize (apiKey : jsval) (options : ConfigPatch) (listing : option JsError)
  : M Client unit :=
  if key_missing apiKey then
    throw (new_Error "OpenAI API key is required and must be a non-empty string")
  else
    match apiKey with
    | JStr key =>
        if negb (String.prefix "sk-" key) then
          throw (new_Error ("Invalid OpenAI API key format. API key should start with "
                              ++ double_quote ++ "sk-" ++ double_quote))
        else
          modify (fun c => mkClient (client c) (merge (config c) options)) ;;;
          c <- get ;;
          pure (_validateConfig (config c)) ;;;
          try_catch
            (modify (fun c => mkClient true (config c)) ;;;
             pure (_validateApiKey listing))
            (fun error =>
               modify (fun c => mkClient false (config c)) ;;;
               throw (_handleAuthenticationError error))
    | _ => throw (new_Error "OpenAI API key is required and must be a non-empty string")
    end.

End OpenAIClientSetup.

(* ===================================================================== *)
(** ** Sample inputs                                                      *)
(* ===================================================================== *)

Module Samples.
Import JS.
Import FunctionRegistry.
Local Open Scope string_scope.

(** A runtime whose text conversions are trivial. *)
Definition sample_runtime : Runtime := {|
  js_String := fun _ => "[object Object]";
  js_ToNumber := fun _ => NaN;
  num_to_string := fun _ => "0";
  JSON_parse := fun _ => inl (JObj []);
  JSON_pretty := fun _ => "{}";
  JSON_function_call_length := fun n a => 25 + String.length n + String.length a;
  regexp_test := fun _ _ => inl true;
  array_prototype_keys := ["push"; "pop"; "map"; "filter"];
  toISOString := fun ms => nat_to_string (N.to_nat ms)
|}.

Definition rate_limit : JsError := mkError "RateLimitError" "Too many requests" (Some 429%Z) None.
Definition unauthorized : JsError := mkError "AuthenticationError" "Bad key" (Some 401%Z) None.

(** A world whose endpoint always answers 429. *)
Definition busy_world : World :=
  mkWorld (fun n => N.of_nat (1000 * n)) 0 (fun _ => ApiFail rate_limit) 0
          (fun _ => (1 # 2)%Q) 0 [].

Definition no_params_schema (n : string) : Schema :=
  mkSchema n "a function" (Some (mkParameters (Some "object") (Some []) None None)).

Definition text_prop : PropSchema :=
  mkProp (Some "string") None None None None None None None None.

(** The schema of the built-in [calculateMath]. *)
Definition calculateMath_schema : Schema :=
  mkSchema "calculateMath" "Calculate simple math expressions"
    (Some (mkParameters (Some "object") (Some [("expression", text_prop)])
             (Some ["expression"]) None)).

(** The schema of the example in the header of function-registry.js. *)
Definition greet_schema : Schema :=
  mkSchema "greet" "Greet a user"
    (Some (mkParameters (Some "object") (Some [("name", text_prop)]) (Some ["name"]) None)).

(** The schema of the built-in [getCurrentWeather]: two required keys. *)
Definition getCurrentWeather_schema : Schema :=
  mkSchema "getCurrentWeather" "Get the current weather in a given location"
    (Some (mkParameters (Some "object")
             (Some [("latitude", text_prop); ("longitude", text_prop)])
             (Some ["longitude"; "latitude"]) None)).

(** A schema that lists a required key but declares no [properties]. *)
Definition required_only_schema : Schema :=
  mkSchema "lookup" "look something up"
    (Some (mkParameters (Some "object") None (Some ["id"]) None)).

Definition returns (v : jsval) : Handler := fun _ => SettlesAt 0 (Fulfil v).
Definition settles_after (ms : N) (v : jsval) : Handler := fun _ => SettlesAt ms (Fulfil v).
Definition hangs : Handler := fun _ => NeverSettles.
Definition fails (msg : string) : Handler := fun _ => ThrowsSync (new_Error msg).

Definition entry (s : Schema) (h : Handler) : string * FunctionData :=
  (s_name s, mkFunctionData s h (s_name s)).

Definition sample_registry : Registry :=
  [ entry (no_params_schema "getCurrentTime") (returns (JStr "2024-01-01T12:00:00.000Z"));
    entry (no_params_schema "slow") (settles_after 7000 (JStr "done"));
    entry (no_params_schema "hang") hangs;
    entry (no_params_schema "broken") (fails "boom");
    entry calculateMath_schema (fails "Math calculation failed");
    entry greet_schema (returns (JStr "Hello, Alice!"));
    entry required_only_schema (returns (JStr "found")) ].

Definition weather_registry : Registry :=
  [ entry getCurrentWeather_schema (returns (JObj [("temperature", JNum (Fin 21))])) ].

End Samples.

(* ===================================================================== *)
(** ** Notions used to state the registry's properties                    *)
(* ===================================================================== *)

Module RegistryNotions.
Import JS.
Import FunctionRegistry.
Import Samples.
Local Open Scope string_scope.

(** The invariant of the data model: the schema stored under a key carries
    that key as its [name]. *)
Definition key_is_schema_name (functions : Registry) : Prop :=
  forall k fd, In (k, fd) functions -> s_name (fd_schema fd) = k.

(** A value JSON represents exactly: it survives a round trip through
    [JSON.stringify] and [JSON.parse]. *)
Fixpoint json_serializable (v : jsval) : bool :=
  match v with
  | JNull | JBool _ | JStr _ | JNum (Fin _) => true
  | JArr items => forallb json_serializable items
  | JObj props => forallb (fun kv => json_serializable (snd kv)) props
  | _ => false
  end.

(** The kinds of the specification's error taxonomy for the registry, and
    the kind each [type] string of the code stands for. *)
Inductive ErrorKind : Type :=
| NotFound | ValidationError | TimeoutError | ExecutionError | UnexpectedError.

Definition kind_of_type (t : string) : option ErrorKind :=
  if String.eqb t "FUNCTION_NOT_FOUND" then Some NotFound
  else if String.eqb t "VALIDATION_ERROR" then Some ValidationError
  else if String.eqb t "TIMEOUT_ERROR" then Some TimeoutError
  else if String.eqb t "EXECUTION_ERROR" then Some ExecutionError
  else if String.eqb t "UNEXPECTED_ERROR" then Some UnexpectedError
  else None.

Definition e_type_of (r : ExecutionResult) : option string :=
  option_map e_type (error r).
Definition e_message_of (r : ExecutionResult) : option string :=
  option_map e_message (error r).

Section WithRuntime.
Context {rt : Runtime}.

(** The world after one clock reading. *)
Definition tick (w : World) : World :=
  mkWorld (clock w) (S (clock_reads w)) (api w) (api_calls w)
          (random w) (random_reads w) (trace w).

(** The world after the race of [executeFunction] has been set up and the
    result formatted. *)
Definition after_run (w : World) (name : string) (args : jsval) : World :=
  mkWorld (clock w) (S (clock_reads w)) (api w) (api_calls w)
          (random w) (random_reads w)
          ((trace w ++ [EvTimerSet timeoutMs]) ++ [EvHandlerCall name args]).

(** The timestamp the next [new Date().toISOString()] yields. *)
Definition stamp (w : World) : string := toISOString (clock w (clock_reads w)).

Definition validation_passes (fd : FunctionData) (args : jsval) : Prop :=
  match s_parameters (fd_schema fd) with
  | Some parameters => validateArguments args parameters = Ok Valid
  | None => True
  end.

Definition success_result (name : string) (v : jsval) (w : World) : ExecutionResult :=
  mkResult true v (Some name) (Some (stamp w)) None None None.

Definition failure_result (message type : string) (md : ErrorMetadata) (w : World)
  : ExecutionResult :=
  mkResult false JNull None None
    (Some (mkErrorInfo message type (stamp w) (md_functionName md)
             (md_executionTime md) (md_originalError md)))
    None None.

Definition execution_failure (name : string) (e : JsError) (w : World) : ExecutionResult :=
  failure_result ("Function execution failed: " ++ err_message e) "EXECUTION_ERROR"
    (mkMetadata (Some name) None (Some (err_name e))) w.

Definition validation_failure (message : string) (w : World) : ExecutionResult :=
  failure_result message "VALIDATION_ERROR" no_metadata w.

(** The handler settles only after the timer has fired, or never. *)
Definition late (b : HandlerBehaviour) : Prop :=
  match b with
  | NeverSettles => True
  | SettlesAt ms _ => (timeoutMs < ms)%N
  | ThrowsSync _ | ThrowsNullish _ => False
  end.

End WithRuntime.

End RegistryNotions.

(* ===================================================================== *)
(** ** Notions used to state the client's properties                      *)
(* ===================================================================== *)

Module ClientNotions.
Import JS.
Import OpenAIClient.
Import Samples.
Local Open Scope string_scope.

(** The statuses the retry policy treats as terminal. *)
Definition terminal (e : JsError) : Prop :=
  err_status e = Some 401%Z \/ err_status e = Some 403%Z
  \/ err_status e = Some 400%Z \/ err_status e = Some 404%Z.

Definition retryable (e : JsError) : Prop := ~ terminal e.

(** The world after one request has reached the endpoint. *)
Definition after_call (messages : list Message) (w : World) : World :=
  mkWorld (clock w) (clock_reads w) (api w) (S (api_calls w)) (random w) (random_reads w)
          (trace w ++ [EvApiCall (map (fun m => (role m, content m)) messages)]).

(** The jitter of the retry with index [i] counted from the first attempt
    of a call that starts in [w], and the schedule of the first [k] failed
    attempts: a request, then the backoff sleep before the next one. *)
Definition jitter (w : World) (i : nat) : Q :=
  (random w (random_reads w + i) * inject_Z 1000)%Q.

Definition schedule (messages : list Message) (w : World) (first k : nat) : list Event :=
  flat_map (fun i => [EvApiCall (map (fun m => (role m, content m)) messages);
                      EvSleep (inject_Z (2 ^ Z.of_nat (first + i) * 1000) + jitter w i)%Q])
           (seq 0 k).

Definition ready_client : Client := mkClient true (config constructor).

Definition hello : list Message := [mkMessage "user" "Hello" None None None].


End ClientNotions.

(* ===================================================================== *)
(** ** Notions used to state the orchestrator's properties                *)
(* ===================================================================== *)

Module ChatNotions.
Import JS.
Import OpenAIClient.
Import ChatManager.
Import Samples.
Import RegistryNotions.
Local Open Scope string_scope.

Section WithRuntime.
Context {rt : Runtime}.

(** The entry a successful [addToHistory] appends. *)
Definition entry_at (w : World) (role : string) (text : string) (meta : Metadata) : Message :=
  mkMessage role text (Some (stamp w)) (m_function_call meta) (m_name meta).

(** A sequence of [addToHistory] calls, whatever each one is given. *)
Definition run_calls (calls : list (string * jsval * Metadata)) (s : St) : St :=
  fold_left (fun s c => snd (addToHistory (fst (fst c)) (snd (fst c)) (snd c) s)) calls s.

(** One of the last [k] entries of the transcript has empty content. *)
Definition blank_within (k : nat) (h : list Message) : Prop :=
  exists pre post m,
    h = (pre ++ post)%list /\ List.length post <= k /\ In m post /\ content m = "".

Definition failure_envelope (e : Envelope) (kind : string) : Prop :=
  env_success e = false
  /\ exists err, env_error e = Some err /\ ee_type err = kind.

End WithRuntime.

Definition time_call : Response :=
  mkResponse JNull (Some (mkFunctionCall "getCurrentTime" "{}")) "function_call" JNull "gpt-4".

Definition noon_answer : Response :=
  mkResponse (JStr "It is noon") None "stop" JNull "gpt-4".

(** An endpoint that answers the first request with a call of
    [getCurrentTime] and every later one with the text "It is noon". *)
Definition noon_world : World :=
  mkWorld (clock busy_world) 0
          (fun n => match n with O => ApiOk time_call | _ => ApiOk noon_answer end) 0
          (random busy_world) 0 [].

Definition sample_manager : ChatManager :=
  constructor ClientNotions.ready_client sample_registry.

End ChatNotions.

(* ===================================================================== *)
(** ** Notions and samples for the further properties                     *)
(* ===================================================================== *)

Module ExtraNotions.
Import JS.
Import FunctionRegistry.
Import Samples.
Local Open Scope string_scope.

(** The record [fd] bound to [k] comes from a bulk registration of
    [schemas] with [handlers]: its schema is one of the list and carries the
    name [k], and its handler is the one found under [k]. *)
Definition from_builtins (schemas : list Schema) (handlers : string -> option Handler)
  (k : string) (fd : FunctionData) : Prop :=
  In (fd_schema fd) schemas /\ s_name (fd_schema fd) = k /\ fd_name fd = k
  /\ handlers k = Some (fd_handler fd).

(** A numeric parameter between 0 and 120, a text of 2 to 5 characters and
    a list of 1 to 3 items. *)
Definition age_prop : PropSchema :=
  mkProp (Some "number") None None None (Some (Fin 0)) (Some (Fin (inject_Z 120)))
         None None None.
Definition code_prop : PropSchema :=
  mkProp (Some "string") (Some (num_of_nat 2)) (Some (num_of_nat 5)) None None None
         None None None.
Definition tags_prop : PropSchema :=
  mkProp (Some "array") None None None None None
         (Some (num_of_nat 1)) (Some (num_of_nat 3)) None.

(** A schema that refuses undeclared arguments. *)
Definition strict_parameters : Parameters :=
  mkParameters (Some "object") (Some [("age", age_prop)]) (Some ["age"]) (Some false).
Definition strict_schema : Schema :=
  mkSchema "setAge" "Set the age" (Some strict_parameters).

(** The keys of [aprops] that [properties] does not declare, in order. *)
Definition undeclared (properties : list (string * PropSchema))
  (aprops : list (string * jsval)) : list string :=
  filter (fun k => negb (mem_string k (keys properties))) (keys aprops).

(** An endpoint that answers 429 twice and then with the text "It is
    noon"; and one that answers 429 once and then 401. *)
Definition flaky_world : World :=
  mkWorld (clock busy_world) 0
          (fun n => match n with
                    | 0 | 1 => ApiFail rate_limit
                    | _ => ApiOk ChatNotions.noon_answer
                    end) 0
          (random busy_world) 0 [].

Definition late_refusal_world : World :=
  mkWorld (clock busy_world) 0
          (fun n => match n with
                    | 0 => ApiFail rate_limit
                    | _ => ApiFail unauthorized
                    end) 0
          (random busy_world) 0 [].

(** An endpoint that answers every request with the text "It is noon". *)
Definition chatty_world : World :=
  mkWorld (clock busy_world) 0 (fun _ => ApiOk ChatNotions.noon_answer) 0
          (random busy_world) 0 [].

(** Every entry has a role and a content that are not empty: the
    transcripts [createChatCompletion] accepts. *)
Definition well_formed (history : list OpenAIClient.Message) : Prop :=
  forall m, In m history -> OpenAIClient.role m <> "" /\ OpenAIClient.content m <> "".


(** The messages of a transcript other than system messages. *)
Definition non_system (messages : list OpenAIClient.Message) : list OpenAIClient.Message :=
  filter (fun msg => negb (ChatManager.is_system msg)) messages.

(** A short exchange with a system message first. *)
Definition short_exchange : list OpenAIClient.Message :=
  [ OpenAIClient.mkMessage "system" "Be brief." None None None;
    OpenAIClient.mkMessage "user" "What is the capital of France?" None None None;
    OpenAIClient.mkMessage "assistant" "Paris." None None None;
    OpenAIClient.mkMessage "user" "And of Italy?" None None None ].

(** Handlers for the names of the sample registry. *)
Definition sample_handlers (k : string) : option Handler :=
  option_map fd_handler (Map_get k sample_registry).




(** The world after the pause between two messages of a batch. *)
Definition paused (w : World) : World :=
  mkWorld (clock w) (clock_reads w) (api w) (api_calls w) (random w) (random_reads w)
          (trace w ++ [EvSleep (inject_Z 100)]).

(** [responses] are the envelopes [processMessage] returns for the messages
    taken in turn, each processed in the state that the one before it and the
    pause after it have left; [s'] is the state after the last pause. *)
Inductive answers_in_turn {rt : Runtime} (rounds : nat)
  (opts : ChatManager.ProcessOptions)
  : list jsval -> ChatManager.St -> list ChatManager.BatchResponse -> ChatManager.St
    -> Prop :=
| answers_none s : answers_in_turn rounds opts [] s [] s
| answers_next message rest s response cm1 w1 responses s' :
    ChatManager.processMessage rounds message (Some opts) s = (Ret response, (cm1, w1)) ->
    answers_in_turn rounds opts rest (cm1, paused w1) responses s' ->
    answers_in_turn rounds opts (message :: rest) s
      (ChatManager.Processed response :: responses) s'.

End ExtraNotions.

(* ===================================================================== *)
(** ** Properties of the function registry                                *)
(* ===================================================================== *)

Module RegistryProps.
Import JS.
Import FunctionRegistry.
Import Samples.
Import RegistryNotions.
Local Open Scope string_scope.

Lemma Map_set_In {A : Type} (k : string) (v : A) (m : list (string * A)) k' v' :
  In (k', v') (Map_set k v m) -> (k', v') = (k, v) \/ In (k', v') m.
Proof.
  induction m as [|[k0 v0] m IH]; simpl.
  - intros [H|[]]; left; symmetry; exact H.
  - destruct (String.eqb k k0).
    + simpl. intros [H|H]; [left; symmetry; exact H | right; right; exact H].
    + simpl. intros [H|H]; [right; left; exact H |].
      destruct (IH H) as [H'|H']; [left; exact H' | right; right; exact H'].
Qed.

Lemma Map_delete_In {A : Type} (k : string) (m : list (string * A)) kv :
  In kv (Map_delete k m) -> In kv m.
Proof. unfold Map_delete. intros H. apply filter_In in H. exact (proj1 H). Qed.

(** [registerFunction] keeps the invariant when it is called with the
    schema's own name, and changes nothing when it throws. *)
Lemma registerFunction_matching_keeps name schema handler functions :
  key_is_schema_name functions ->
  s_name schema = name ->
  key_is_schema_name (snd (registerFunction name schema handler functions)).
Proof.
  intros Hinv Hname. unfold registerFunction.
  destruct (String.eqb name ""); [exact Hinv|].
  destruct (negb (validateSchema schema)); [exact Hinv|].
  simpl. intros k fd Hin. apply Map_set_In in Hin. destruct Hin as [Heq|Hin].
  - inversion Heq; subst. reflexivity.
  - exact (Hinv k fd Hin).
Qed.

Lemma registerBuiltInFunctions_keeps schemas handlers :
  forall functions,
  key_is_schema_name functions ->
  key_is_schema_name (snd (registerBuiltInFunctions schemas handlers functions)).
Proof.
  induction schemas as [|schema rest IH]; intros functions Hinv; simpl.
  - exact Hinv.
  - destruct (handlers (s_name schema)) as [handler|]; [|exact Hinv].
    unfold bind.
    pose proof (registerFunction_matching_keeps (s_name schema) schema handler
                  functions Hinv eq_refl) as Hstep.
    destruct (registerFunction (s_name schema) schema handler functions) as [[u|e|] fs];
      simpl in *; auto.
Qed.

Lemma unregisterFunction_keeps name functions :
  key_is_schema_name functions ->
  key_is_schema_name (snd (unregisterFunction name functions)).
Proof.
  intros Hinv k fd Hin. simpl in Hin. apply Map_delete_In in Hin. exact (Hinv k fd Hin).
Qed.

(** C9 (fails on the code). [registerFunction] never compares its [name]
    argument with [schema.name]: registering a valid schema named "bar" under
    the key "foo" succeeds, and the registry then holds a record whose schema
    name differs from its key. *)
Theorem C9_registerFunction_stores_mismatched_name :
  let schema := mkSchema "bar" "a function" None in
  let handler := returns JNull in
  registerFunction "foo" schema handler constructor
    = (Ret tt, [("foo", mkFunctionData schema handler "foo")])
  /\ ~ key_is_schema_name (snd (registerFunction "foo" schema handler constructor)).
Proof.
  split; [reflexivity|].
  intros H. specialize (H "foo" _ (or_introl eq_refl)). discriminate H.
Qed.

(** *** Sanitisation *)

(** Whenever [JSON.stringify] accepts the value, [sanitizeResult] returns the
    value itself. *)
Lemma sanitizeResult_accepted_is_identity v :
  stringify_throws v = false -> sanitizeResult v = v.
Proof.
  intros H. destruct v; simpl in *; try discriminate; try rewrite H; reflexivity.
Qed.

(** C7 (fails on the code). [JSON.stringify] does not throw on a function
    valued property, it leaves it out; so the test [sanitizeResult] starts
    with accepts an object that contains a function, and the object comes
    back unchanged, function included. *)
Theorem C7_sanitizeResult_keeps_function :
  let value := JObj [("count", JNum (Fin 1)); ("callback", JFunction "callback")] in
  sanitizeResult value = value
  /\ json_serializable (sanitizeResult value) = false
  /\ sanitizeResult (JFunction "callback") = JFunction "callback".
Proof. repeat split. Qed.

(** *** Execution *)

Section ExecutionProps.
Context {rt : Runtime}.

Lemma race_late b :
  late b -> race b = Lost (ErrorObject timeout_error) /\ throws_sync b = false.
Proof.
  destruct b as [e|ms s| |n]; simpl; intros H;
    [contradiction| |split; reflexivity|contradiction].
  split; [|reflexivity].
  destruct (N.ltb_spec ms timeoutMs) as [Hlt|Hge]; [|reflexivity].
  exfalso. apply (N.lt_irrefl ms). eapply N.lt_trans; eassumption.
Qed.

Lemma race_won b v : race b = Won v -> throws_sync b = false.
Proof.
  destruct b as [e|ms s| |n]; simpl; intros H; try discriminate H; reflexivity.
Qed.

Lemma validated fd args :
  validation_passes fd args ->
  match s_parameters (fd_schema fd) with
  | Some parameters => pure (validateArguments args parameters)
  | None => ret Valid
  end = (ret Valid : M World Validation).
Proof.
  unfold validation_passes. destruct (s_parameters (fd_schema fd)); [|reflexivity].
  intros ->. reflexivity.
Qed.

(** Past validation, [executeFunction] sets the timer, calls the handler and
    reports who won the race. *)
Lemma executeFunction_fulfilled functions name fd args v w :
  Map_get name functions = Some fd ->
  validation_passes fd (default_args args) ->
  race (fd_handler fd (default_args args)) = Won v ->
  executeFunction functions name args w
    = (Ret (success_result name v w), after_run w name (default_args args)).
Proof.
  intros Hget Hval Hrace. unfold executeFunction. rewrite Hget.
  unfold try_catch_any, bind. rewrite (validated _ _ Hval). simpl.
  rewrite (race_won _ _ Hrace), Hrace. reflexivity.
Qed.

Lemma executeFunction_thrown functions name fd args e w :
  Map_get name functions = Some fd ->
  validation_passes fd (default_args args) ->
  race (fd_handler fd (default_args args)) = Lost (ErrorObject e) ->
  throws_sync (fd_handler fd (default_args args)) = false ->
  executeFunction functions name args w
    = (Ret (execution_failure name e w), after_run w name (default_args args)).
Proof.
  intros Hget Hval Hrace Hsync. unfold executeFunction. rewrite Hget.
  unfold try_catch_any, bind. rewrite (validated _ _ Hval). simpl.
  rewrite Hsync, Hrace. reflexivity.
Qed.

Lemma executeFunction_invalid functions name fd parameters args msg w :
  Map_get name functions = Some fd ->
  s_parameters (fd_schema fd) = Some parameters ->
  validateArguments (default_args args) parameters = Ok (Invalid msg) ->
  executeFunction functions name args w = (Ret (validation_failure msg w), tick w).
Proof.
  intros Hget Hp Hval. unfold executeFunction. rewrite Hget, Hp.
  unfold try_catch_any, bind, pure. rewrite Hval. reflexivity.
Qed.

(** [executeFunction] always comes to an end, and it makes no request to the
    completion endpoint. *)
Lemma executeFunction_runs functions name args w :
  exists res w',
    executeFunction functions name args w = (res, w')
    /\ res <> OutOfRounds
    /\ api_calls w' = api_calls w.
Proof.
  unfold executeFunction.
  destruct (Map_get name functions) as [fd|];
    [|eexists; eexists; split; [reflexivity|]; split; [discriminate | reflexivity]].
  unfold try_catch_any, bind, pure.
  destruct (s_parameters (fd_schema fd)) as [p|]; simpl;
    [destruct (validateArguments (default_args args) p) as [[|msg]|e]; simpl|];
    try (eexists; eexists; split; [reflexivity|]; split; [discriminate | reflexivity]);
    (destruct (fd_handler fd (default_args args)) as [e|ms [v|e|n]| |n]; simpl;
     try destruct (N.ltb ms timeoutMs); simpl;
     eexists; eexists; (split; [reflexivity|]); (split; [discriminate | reflexivity])).
Qed.

Lemma mem_string_In k l : mem_string k l = true <-> In k l.
Proof.
  unfold mem_string. rewrite existsb_exists. split.
  - intros [x [Hin Heq]]. apply String.eqb_eq in Heq. subst. exact Hin.
  - intros Hin. exists k. split; [exact Hin | apply String.eqb_refl].
Qed.

Lemma mem_string_not_In k l : mem_string k l = false <-> ~ In k l.
Proof.
  rewrite <- mem_string_In. destruct (mem_string k l); split; intros H;
    try reflexivity; try discriminate; try (intros H'; discriminate H').
  exfalso. apply H. reflexivity.
Qed.

Lemma check_required_first present missing rest args :
  (forall k, In k present -> js_in k args = true) ->
  js_in missing args = false ->
  check_required (present ++ missing :: rest) args
  = Invalid ("Missing required parameter: " ++ missing).
Proof.
  intros Hpresent Hmissing. induction present as [|k present IH]; simpl.
  - rewrite Hmissing. reflexivity.
  - rewrite (Hpresent k (or_introl eq_refl)). simpl.
    apply IH. intros k' Hk'. apply Hpresent. right. exact Hk'.
Qed.

(** Past validation the timer is set and the handler called, whatever comes
    of the call. *)
Lemma executeFunction_calls_handler functions name fd args w :
  Map_get name functions = Some fd ->
  validation_passes fd (default_args args) ->
  exists res w',
    executeFunction functions name args w = (res, w')
    /\ In (EvTimerSet timeoutMs) (trace w')
    /\ In (EvHandlerCall name (default_args args)) (trace w').
Proof.
  intros Hget Hval. unfold executeFunction. rewrite Hget.
  unfold try_catch_any, bind. rewrite (validated _ _ Hval).
  destruct (fd_handler fd (default_args args)) as [e|ms [v|e|n]| |n]; simpl;
    try destruct (N.ltb ms timeoutMs); simpl;
    eexists; eexists; (split; [reflexivity|]); simpl;
    rewrite <- ?app_assoc; simpl;
    (split; apply in_or_app; right; simpl; auto).
Qed.

Lemma check_required_present required args :
  (forall k, In k required -> js_in k args = true) ->
  check_required required args = Valid.
Proof.
  induction required as [|r rest IH]; intros H; [reflexivity|].
  simpl. rewrite (H r (or_introl eq_refl)). simpl.
  apply IH. intros k Hk. apply H. right. exact Hk.
Qed.

Lemma check_entries_valid properties entries :
  (forall k v, In (k, v) entries -> check_entry properties k v = Ok Valid) ->
  check_entries properties entries = Ok Valid.
Proof.
  induction entries as [|[k v] rest IH]; intros H; [reflexivity|].
  simpl. rewrite (H k v (or_introl eq_refl)).
  apply IH. intros k' v' Hin. apply H. right. exact Hin.
Qed.

(** C6, as amended. When the arguments pass validation and the handler
    never settles, or settles only after the 5000 ms timer has fired,
    [executeFunction] sets a 5000 ms timer, calls the handler once and returns
    a failure whose type is EXECUTION_ERROR (the type of any handler failure)
    and whose message reports the timeout. The result is written without any
    reference to what the handler does later, so a late settlement changes
    nothing in it. *)
Theorem C6_timeout_is_execution_error functions name fd args w :
  Map_get name functions = Some fd ->
  validation_passes fd (default_args args) ->
  late (fd_handler fd (default_args args)) ->
  executeFunction functions name args w
    = (Ret (execution_failure name timeout_error w), after_run w name (default_args args))
  /\ e_type_of (execution_failure name timeout_error w) = Some "EXECUTION_ERROR"
  /\ e_message_of (execution_failure name timeout_error w)
     = Some "Function execution failed: Function execution timeout after 5000ms"
  /\ trace (after_run w name (default_args args))
     = (trace w ++ [EvTimerSet 5000; EvHandlerCall name (default_args args)])%list.
Proof.
  intros Hget Hval Hlate. split; [|split; [reflexivity|split; [reflexivity|]]].
  - apply executeFunction_thrown with (fd := fd); auto; apply race_late; exact Hlate.
  - simpl. rewrite <- app_assoc. reflexivity.
Qed.

(** C5, as amended. For a function whose schema declares both [properties]
    and a [required] list, and a plain arguments object: if some required key
    is neither an own key of the arguments nor a member of [Object.prototype],
    the result is a VALIDATION_ERROR failure whose message names the first
    such key of the [required] list (every key listed before it is present),
    and neither the timer is set nor the handler called; if every required
    key is an own key, every entry passes the type and constraint checks of
    its declared schema, no entry is unexpected, and the handler fulfils
    before the 5000 ms timer, the result is a success carrying the handler's
    value. A schema without [properties] is not validated at all: whatever
    its [required] list and whatever the arguments, the timer is set and the
    handler called, and a handler that fulfils in time yields a success. *)
Theorem C5_required_arguments functions name fd parameters w :
  Map_get name functions = Some fd ->
  s_parameters (fd_schema fd) = Some parameters ->
  (forall properties present missing rest aprops,
     p_properties parameters = Some properties ->
     p_required parameters = Some (present ++ missing :: rest)%list ->
     (forall k, In k present -> In k (keys aprops) \/ In k object_prototype_keys) ->
     ~ In missing (keys aprops) -> ~ In missing object_prototype_keys ->
     executeFunction functions name (JObj aprops) w
       = (Ret (validation_failure ("Missing required parameter: " ++ missing) w), tick w)
     /\ trace (tick w) = trace w)
  /\
  (forall properties required aprops,
     p_properties parameters = Some properties ->
     p_required parameters = Some required ->
     (forall k, In k required -> In k (keys aprops)) ->
     (forall k v, In (k, v) aprops -> check_entry properties k v = Ok Valid) ->
     check_additional parameters properties (JObj aprops) = Valid ->
     forall ms v,
       fd_handler fd (JObj aprops) = SettlesAt ms (Fulfil v) -> (ms < timeoutMs)%N ->
       executeFunction functions name (JObj aprops) w
         = (Ret (success_result name v w), after_run w name (JObj aprops))
       /\ success (success_result name v w) = true)
  /\
  (p_properties parameters = None ->
   forall args,
     (exists res w',
        executeFunction functions name args w = (res, w')
        /\ In (EvTimerSet 5000) (trace w')
        /\ In (EvHandlerCall name (default_args args)) (trace w'))
     /\ (forall ms v,
           fd_handler fd (default_args args) = SettlesAt ms (Fulfil v) ->
           (ms < timeoutMs)%N ->
           executeFunction functions name args w
             = (Ret (success_result name v w), after_run w name (default_args args))
           /\ success (success_result name v w) = true)).
Proof.
  intros Hget Hp. split; [|split].
  - intros properties present missing rest aprops Hprops Hreq Hpresent Hown Hproto.
    split; [|reflexivity].
    apply executeFunction_invalid with (fd := fd) (parameters := parameters); auto.
    simpl. unfold validateArguments. rewrite Hprops, Hreq. simpl.
    rewrite check_required_first; [reflexivity| |].
    + intros k Hk. unfold js_in. apply orb_true_iff.
      destruct (Hpresent k Hk) as [H|H]; [left | right]; apply mem_string_In; exact H.
    + unfold js_in. apply orb_false_iff. split; apply mem_string_not_In; assumption.
  - intros properties required aprops Hprops Hreq Hpresent Hentries Hadd ms v Hh Hms.
    split; [|reflexivity].
    apply executeFunction_fulfilled with (fd := fd); simpl; auto.
    + unfold validation_passes. rewrite Hp. unfold validateArguments.
      rewrite Hprops, Hreq. simpl.
      rewrite check_required_present.
      * rewrite (check_entries_valid properties aprops Hentries). simpl in Hadd.
        rewrite Hadd. reflexivity.
      * intros k Hk. unfold js_in. apply orb_true_iff. left. apply mem_string_In. auto.
    + rewrite Hh. simpl. apply N.ltb_lt in Hms. rewrite Hms. reflexivity.
  - intros Hnone args.
    assert (Hval : validation_passes fd (default_args args)).
    { unfold validation_passes. rewrite Hp. unfold validateArguments. rewrite Hnone.
      reflexivity. }
    split.
    + apply executeFunction_calls_handler with (fd := fd); assumption.
    + intros ms v Hh Hms. split; [|reflexivity].
      apply executeFunction_fulfilled with (fd := fd); auto.
      rewrite Hh. simpl. apply N.ltb_lt in Hms. rewrite Hms. reflexivity.
Qed.

(** C1 (fails on the code). [executeFunctionSafely] passes neither [options]
    nor its [timeout] to [executeFunction], whose race always runs against
    5000 ms: a handler that fulfils after 7000 ms, called with
    [{timeout: 10000}], yields a failure that reports a timeout after 5000 ms,
    while the [timeout] field of that result says 10000. *)
Theorem C1_caller_timeout_not_used :
  exists res w',
    executeFunctionSafely sample_registry "slow" (JObj [])
      (mkSafeOptions (Some 10000%N) (Some true)) busy_world = (Ret res, w')
    /\ success res = false
    /\ timeout res = Some 10000%N
    /\ e_type_of res = Some "EXECUTION_ERROR"
    /\ e_message_of res
       = Some "Function execution failed: Function execution timeout after 5000ms"
    /\ In (EvTimerSet 5000) (trace w').
Proof.
  eexists. eexists. split; [reflexivity|]. simpl. repeat split. left. reflexivity.
Qed.

(** The same for every caller-supplied budget: past validation, a handler
    that fulfils after 5000 ms and before [T] ms fails with the 5000 ms
    timeout, whatever [T] is. *)
Lemma executeFunctionSafely_ignores_timeout functions name fd args T sanitize t v w :
  Map_get name functions = Some fd ->
  validation_passes fd (default_args args) ->
  fd_handler fd (default_args args) = SettlesAt t (Fulfil v) ->
  (5000 < t)%N -> (t < T)%N ->
  exists res w',
    executeFunctionSafely functions name args (mkSafeOptions (Some T) sanitize) w
      = (Ret res, w')
    /\ success res = false
    /\ timeout res = Some T
    /\ e_message_of res
       = Some "Function execution failed: Function execution timeout after 5000ms".
Proof.
  intros Hget Hval Hh Ht HT. unfold executeFunctionSafely, bind, try_catch. simpl.
  erewrite executeFunction_thrown with (e := timeout_error); eauto.
  - simpl. eexists. eexists. split; [reflexivity|]. simpl. auto.
  - apply race_late. rewrite Hh. exact Ht.
  - rewrite Hh. reflexivity.
Qed.

End ExecutionProps.

(** Witness of C6: the sample function [hang]. *)
Lemma C6_witness :
  executeFunction (rt := sample_runtime) sample_registry "hang" (JObj []) busy_world
    = (Ret (execution_failure (rt := sample_runtime) "hang" timeout_error busy_world),
       after_run busy_world "hang" (JObj [])).
Proof.
  apply (C6_timeout_is_execution_error (rt := sample_runtime) sample_registry "hang"
           (snd (entry (no_params_schema "hang") hangs)) (JObj []) busy_world);
    [reflexivity | reflexivity | exact I].
Defined.

(** The claim C6 as stated does not hold: the failure of a handler that
    never settles is not of kind TimeoutError. *)
Lemma C6_counterexample :
  exists res w',
    executeFunction (rt := sample_runtime) sample_registry "hang" (JObj []) busy_world
      = (Ret res, w')
    /\ success res = false
    /\ (forall t, e_type_of res = Some t -> kind_of_type t <> Some TimeoutError).
Proof.
  eexists. eexists. split; [reflexivity|]. split; [reflexivity|].
  intros t Ht. inversion Ht; subst. discriminate.
Qed.

(** Witness of C5: [getCurrentWeather] called without any of its two
    required keys is told about the first, [longitude]; [greet] called with
    its required [name] succeeds; and [lookup], whose schema declares no
    [properties], is run without the key its [required] list names. *)
Lemma C5_witness :
  (executeFunction (rt := sample_runtime) weather_registry "getCurrentWeather" (JObj [])
     busy_world
   = (Ret (validation_failure (rt := sample_runtime)
             ("Missing required parameter: " ++ "longitude") busy_world),
      tick busy_world)
   /\ trace (tick busy_world) = trace busy_world)
  /\
  (executeFunction (rt := sample_runtime) sample_registry "greet"
     (JObj [("name", JStr "Alice")]) busy_world
   = (Ret (success_result (rt := sample_runtime) "greet" (JStr "Hello, Alice!") busy_world),
      after_run busy_world "greet" (JObj [("name", JStr "Alice")]))
   /\ success (success_result (rt := sample_runtime) "greet" (JStr "Hello, Alice!")
                 busy_world) = true)
  /\
  (executeFunction (rt := sample_runtime) sample_registry "lookup" (JObj []) busy_world
   = (Ret (success_result (rt := sample_runtime) "lookup" (JStr "found") busy_world),
      after_run busy_world "lookup" (JObj []))
   /\ success (success_result (rt := sample_runtime) "lookup" (JStr "found") busy_world)
      = true).
Proof.
  split; [|split].
  - refine (proj1 (C5_required_arguments (rt := sample_runtime) weather_registry
                     "getCurrentWeather"
                     (snd (entry getCurrentWeather_schema
                             (returns (JObj [("temperature", JNum (Fin 21))]))))
                     (mkParameters (Some "object")
                        (Some [("latitude", text_prop); ("longitude", text_prop)])
                        (Some ["longitude"; "latitude"]) None)
                     busy_world eq_refl eq_refl)
                  [("latitude", text_prop); ("longitude", text_prop)]
                  [] "longitude" ["latitude"] [] eq_refl eq_refl _ _ _).
    + intros k [].
    + intros H. exact H.
    + simpl. intros H. repeat (destruct H as [H|H]; [discriminate H|]). exact H.
  - refine (proj1 (proj2 (C5_required_arguments (rt := sample_runtime) sample_registry
                            "greet"
                            (snd (entry greet_schema (returns (JStr "Hello, Alice!"))))
                            (mkParameters (Some "object") (Some [("name", text_prop)])
                               (Some ["name"]) None)
                            busy_world eq_refl eq_refl))
                  [("name", text_prop)] ["name"] [("name", JStr "Alice")]
                  eq_refl eq_refl _ _ eq_refl 0%N (JStr "Hello, Alice!") eq_refl eq_refl).
    + intros k [H|[]]. subst k. left. reflexivity.
    + intros k v [H|[]]. inversion H. reflexivity.
  - exact (proj2 (proj2 (proj2 (C5_required_arguments (rt := sample_runtime)
                                  sample_registry "lookup"
                                  (snd (entry required_only_schema (returns (JStr "found"))))
                                  (mkParameters (Some "object") None (Some ["id"]) None)
                                  busy_world eq_refl eq_refl))
                   eq_refl (JObj []))
             0%N (JStr "found") eq_refl eq_refl).
Defined.

(** The claim C5 as stated does not hold: a schema with a [required] list
    and no [properties] lets a call without the required key through to the
    handler; and a call with every required argument present and of the
    declared type fails when the handler throws. *)
Lemma C5_counterexample :
  (exists res w',
     executeFunction (rt := sample_runtime) sample_registry "lookup" (JObj []) busy_world
       = (Ret res, w')
     /\ success res = true
     /\ In (EvHandlerCall "lookup" (JObj [])) (trace w'))
  /\
  (exists res w',
     executeFunction (rt := sample_runtime) sample_registry "calculateMath"
       (JObj [("expression", JStr "1/0")]) busy_world = (Ret res, w')
     /\ success res = false).
Proof.
  split; eexists; eexists; (split; [reflexivity|]); simpl; auto.
Qed.

End RegistryProps.

(* ===================================================================== *)
(** ** Properties of the retrying completion client                       *)
(* ===================================================================== *)

Module ClientProps.
Import JS.
Import OpenAIClient.
Import Samples.
Import ClientNotions.
Local Open Scope string_scope.

Lemma status_is_spec e s : status_is e s = true <-> err_status e = Some s.
Proof.
  unfold status_is. destruct (err_status e) as [s'|].
  - rewrite Z.eqb_eq. split; [intros ->; reflexivity | intros H; inversion H; reflexivity].
  - split; discriminate.
Qed.

Lemma _shouldNotRetry_spec e : _shouldNotRetry e = true <-> terminal e.
Proof.
  unfold _shouldNotRetry, terminal.
  rewrite <- !status_is_spec.
  destruct (status_is e 401), (status_is e 403), (status_is e 400), (status_is e 404);
    simpl; intuition discriminate.
Qed.

Lemma _shouldNotRetry_retryable e : _shouldNotRetry e = false <-> retryable e.
Proof.
  unfold retryable. rewrite <- _shouldNotRetry_spec.
  destruct (_shouldNotRetry e); split; intros H; try reflexivity; try discriminate.
  exfalso. apply H. reflexivity.
Qed.

Lemma schedule_step messages w w1 first k :
  random w1 = random w -> random_reads w1 = S (random_reads w) ->
  schedule messages w first (S k)
  = ([EvApiCall (map (fun m => (role m, content m)) messages);
      EvSleep (baseDelay first + jitter w 0)%Q]
       ++ schedule messages w1 (S first) k)%list.
Proof.
  intros Hr Hn. unfold schedule. rewrite <- cons_seq. simpl flat_map at 1.
  rewrite Nat.add_0_r.
  rewrite <- seq_shift, flat_map_concat_map, map_map, <- flat_map_concat_map.
  simpl app. unfold baseDelay. do 2 f_equal.
  apply flat_map_ext. intros i. unfold jitter. rewrite Hr, Hn.
  replace (first + S i) with (S first + i) by lia.
  replace (random_reads w + S i) with (S (random_reads w) + i) by lia.
  reflexivity.
Qed.

Lemma completions_create_eq messages w :
  completions_create messages w
  = (match api w (api_calls w) with ApiOk r => Ret r | ApiFail e => Throw e end,
     after_call messages w).
Proof. unfold completions_create. destruct (api w (api_calls w)); reflexivity. Qed.

(** The loop of [_executeWithRetry] with [n] iterations left: it stops at
    the first attempt [k] that succeeds or fails terminally, and at the last
    iteration at the latest. *)
Lemma retry_loop_runs messages maxRetries :
  forall n attempt lastError w,
  attempt + n = S maxRetries -> 0 < n ->
  exists k res w',
    retry_loop (completions_create messages) maxRetries n attempt lastError w = (res, w')
    /\ k < n
    /\ (forall i, i < k ->
          exists e, api w (api_calls w + i) = ApiFail e /\ retryable e)
    /\ match api w (api_calls w + k) with
       | ApiOk r => res = Ret r
       | ApiFail e => res = Throw (_handleApiError e) /\ (terminal e \/ S k = n)
       end
    /\ api_calls w' = api_calls w + k + 1
    /\ random_reads w' = random_reads w + k
    /\ trace w'
       = (trace w ++ schedule messages w attempt k
            ++ [EvApiCall (map (fun m => (role m, content m)) messages)])%list
    /\ api w' = api w /\ random w' = random w
    /\ clock w' = clock w /\ clock_reads w' = clock_reads w.
Proof.
  induction n as [|n IH]; intros attempt lastError w Hsum Hpos; [lia|].
  simpl. unfold try_catch. rewrite completions_create_eq.
  destruct (api w (api_calls w)) as [r|e] eqn:Hout.
  - exists 0. eexists. eexists. split; [reflexivity|].
    rewrite Nat.add_0_r, Hout. simpl. rewrite !Nat.add_0_r.
    repeat split; try lia.
  - destruct (_shouldNotRetry e) eqn:Hterm.
    + exists 0. eexists. eexists. split; [reflexivity|].
      rewrite Nat.add_0_r, Hout. simpl. rewrite !Nat.add_0_r.
      repeat split; try lia.
      left. apply _shouldNotRetry_spec. exact Hterm.
    + destruct (Nat.eqb attempt maxRetries) eqn:Hlast.
      * apply Nat.eqb_eq in Hlast.
        exists 0. eexists. eexists. split; [reflexivity|].
        rewrite Nat.add_0_r, Hout. simpl. rewrite !Nat.add_0_r.
        repeat split; try lia.
      * apply Nat.eqb_neq in Hlast.
        unfold bind, Math_random, _sleep, log, modify. simpl.
        match goal with
        | |- context [retry_loop _ _ n (S attempt) (Some e) ?w1] =>
            destruct (IH (S attempt) (Some e) w1 ltac:(lia) ltac:(lia))
              as [k [res [w' [Hrun [Hk [Hpre [Hres [Hcalls [Hreads [Htrace Hsame]]]]]]]]]];
            pose proof (schedule_step messages w w1 attempt k eq_refl eq_refl) as Hsched
        end.
        simpl in *.
        exists (S k), res, w'. split; [exact Hrun|].
        split; [lia|]. split; [|split; [|split; [lia|split; [lia|split]]]].
        -- intros i Hi. destruct i as [|i].
           ++ exists e. rewrite Nat.add_0_r. split; [exact Hout|].
              apply _shouldNotRetry_retryable. exact Hterm.
           ++ destruct (Hpre i ltac:(lia)) as [e' [He' Hr']].
              exists e'. split; [|exact Hr'].
              rewrite <- He'. f_equal. lia.
        -- replace (api_calls w + S k) with (S (api_calls w + k)) by lia.
           destruct (api w (S (api_calls w + k))); [exact Hres|].
           destruct Hres as [Hres Hstop]. split; [exact Hres|].
           destruct Hstop as [Ht|Hs]; [left; exact Ht | right; lia].
        -- rewrite Htrace, Hsched. unfold jitter. rewrite Nat.add_0_r.
           rewrite <- !app_assoc. reflexivity.
        -- exact Hsame.
Qed.



Lemma rate_limit_retryable : retryable rate_limit.
Proof. intros [H|[H|[H|H]]]; discriminate H. Qed.


End ClientProps.

(* ===================================================================== *)
(** ** Properties of the conversation orchestrator                        *)
(* ===================================================================== *)

Module ChatProps.
Import JS.
Import OpenAIClient.
Import ChatManager.
Import Samples.
Import RegistryNotions.
Import ChatNotions.
Import RegistryProps.
Local Open Scope string_scope.

Section Transcript.
Context {rt : Runtime}.

Lemma slice_recent {A : Type} (l : list A) :
  19 <= List.length l ->
  slice_from (- Z.of_nat maxHistoryLength + 1) l = skipn (List.length l - 19) l.
Proof.
  intros H. unfold slice_from, maxHistoryLength.
  change (- Z.of_nat 20 + 1)%Z with (-19)%Z. cbv beta iota zeta.
  change ((-19 <? 0)%Z) with true. cbv iota. f_equal. lia.
Qed.

Lemma trimHistory_short h : List.length h <= 20 -> trimHistory h = h.
Proof.
  intros H. unfold trimHistory, maxHistoryLength.
  apply Nat.leb_le in H. rewrite H. reflexivity.
Qed.

Lemma trimHistory_long h :
  20 < List.length h ->
  exists first rest,
    h = first :: rest /\ trimHistory h = first :: skipn (List.length h - 19) h.
Proof.
  intros H. unfold trimHistory, maxHistoryLength.
  destruct (Nat.leb_spec (List.length h) 20) as [Hle|_]; [lia|].
  destruct h as [|first rest]; [simpl in H; lia|].
  exists first, rest. split; [reflexivity|].
  rewrite slice_recent by lia. reflexivity.
Qed.

Lemma trimHistory_length h :
  List.length (trimHistory h) <= 20
  /\ (20 < List.length h -> List.length (trimHistory h) = 20).
Proof.
  destruct (Nat.le_gt_cases (List.length h) 20) as [Hle|Hgt].
  - rewrite trimHistory_short by exact Hle. split; [exact Hle | lia].
  - destruct (trimHistory_long h Hgt) as [first [rest [_ Ht]]].
    rewrite Ht. simpl. rewrite length_skipn. lia.
Qed.

Lemma trimHistory_hd h : hd_error (trimHistory h) = hd_error h.
Proof.
  destruct (Nat.le_gt_cases (List.length h) 20) as [Hle|Hgt].
  - rewrite trimHistory_short by exact Hle. reflexivity.
  - destruct (trimHistory_long h Hgt) as [first [rest [Hh Ht]]].
    rewrite Ht, Hh. reflexivity.
Qed.

Lemma In_skipn {A : Type} (x : A) n l : In x (skipn n l) -> In x l.
Proof.
  intros H. rewrite <- (firstn_skipn n l). apply in_or_app. right. exact H.
Qed.

Lemma trimHistory_In m h : In m (trimHistory h) -> In m h.
Proof.
  destruct (Nat.le_gt_cases (List.length h) 20) as [Hle|Hgt].
  - rewrite trimHistory_short by exact Hle. auto.
  - destruct (trimHistory_long h Hgt) as [first [rest [Hh Ht]]].
    rewrite Ht. intros [H|H].
    + rewrite Hh. left. exact H.
    + eapply In_skipn. exact H.
Qed.

(** A new object, and a conversation just started, hold the system message
    alone. *)
Lemma constructor_seeds c r :
  messageHistory (constructor c r) = [systemMessage (constructor c r)].
Proof. reflexivity. Qed.

Lemma startConversation_seeds systemPrompt cm :
  messageHistory (startConversation systemPrompt cm)
  = [systemMessage (startConversation systemPrompt cm)].
Proof. reflexivity. Qed.

Lemma lift_Date_iso (cm : ChatManager) (w : World) :
  lift_world Date_iso (cm, w) = (Ret (stamp w), (cm, tick w)).
Proof. reflexivity. Qed.

Lemma addToHistory_text role text meta cm w :
  mem_string role validRoles = true ->
  addToHistory role (JStr text) meta (cm, w)
  = (Ret tt,
     (set_history (trimHistory (messageHistory cm ++ [entry_at w role text meta])) cm,
      tick w)).
Proof. intros H. unfold addToHistory. rewrite H. reflexivity. Qed.

(** A call that returns appends one entry and trims; a call that throws
    leaves the transcript as it was. *)
Lemma addToHistory_cases role content meta cm w :
  (exists m, snd (addToHistory role content meta (cm, w))
             = (set_history (trimHistory (messageHistory cm ++ [m])) cm, tick w))
  \/ snd (addToHistory role content meta (cm, w)) = (cm, w).
Proof.
  unfold addToHistory. destruct (mem_string role validRoles); simpl; [|right; reflexivity].
  destruct content; try (right; reflexivity).
  left. eexists. reflexivity.
Qed.

Lemma run_calls_invariant sys calls :
  forall s,
  hd_error (messageHistory (fst s)) = Some sys ->
  List.length (messageHistory (fst s)) <= 20 ->
  hd_error (messageHistory (fst (run_calls calls s))) = Some sys
  /\ List.length (messageHistory (fst (run_calls calls s))) <= 20.
Proof.
  induction calls as [|[[role content] meta] rest IH]; intros [cm w] Hhd Hlen;
    [split; assumption|].
  simpl. destruct (addToHistory_cases role content meta cm w) as [[m Hs]|Hs];
    rewrite Hs; apply IH; simpl in *; auto.
  - rewrite trimHistory_hd. destruct (messageHistory cm); [discriminate|exact Hhd].
  - apply trimHistory_length.
Qed.


(** C8. When the input is not a string, or is the empty string,
    [processMessage] returns a failure envelope; the only entry it appends to
    the transcript has the role assistant, so every user entry of the
    transcript was there before. *)
Theorem C8_invalid_input_appends_no_user_message
  (rounds : nat) (cm : ChatManager) (w : World) (userInput : jsval)
  (options : ProcessOptions) :
  (forall s, userInput = JStr s -> s = "") ->
  exists envelope cm' w',
    processMessage rounds userInput (Some options) (cm, w) = (Ret envelope, (cm', w'))
    /\ env_success envelope = false
    /\ (exists m, role m = "assistant"
                  /\ messageHistory cm' = trimHistory (messageHistory cm ++ [m]))
    /\ (forall m, In m (messageHistory cm') -> role m = "user" -> In m (messageHistory cm)).
Proof.
  intros Hinput.
  assert (Hinvalid : invalid_input userInput = true).
  { unfold invalid_input. destruct userInput; simpl; try reflexivity;
      try apply orb_true_r.
    rewrite (Hinput s eq_refl). reflexivity. }
  unfold processMessage, process_turn, processing_failed, try_catch. rewrite Hinvalid.
  unfold throw at 1. unfold bind. rewrite lift_Date_iso.
  rewrite addToHistory_text by reflexivity.
  eexists. eexists. eexists. split; [reflexivity|]. simpl.
  split; [reflexivity|]. split.
  - eexists. split; [|reflexivity]. reflexivity.
  - intros m Hin Hrole. apply trimHistory_In in Hin. apply in_app_or in Hin.
    destruct Hin as [Hin|[Heq|[]]]; [exact Hin|].
    subst m. discriminate Hrole.
Qed.

(** *** The function-call round against the repository's client *)

Lemma bind_ret {S A B} (c : M S A) (k : A -> M S B) s a s' :
  c s = (Ret a, s') -> bind c k s = k a s'.
Proof. unfold bind. intros ->. reflexivity. Qed.

Lemma bind_throw {S A B} (c : M S A) (k : A -> M S B) s e s' :
  c s = (Throw e, s') -> bind c k s = (Throw e, s').
Proof. unfold bind. intros ->. reflexivity. Qed.

Lemma try_catch_ret {S A} (c : M S A) h s a s' :
  c s = (Ret a, s') -> try_catch c h s = (Ret a, s').
Proof. unfold try_catch. intros ->. reflexivity. Qed.

Lemma try_catch_throw {S A} (c : M S A) h s e s' :
  c s = (Throw e, s') -> try_catch c h s = h e s'.
Proof. unfold try_catch. intros ->. reflexivity. Qed.

Lemma blank_within_mono k k' h : blank_within k h -> k <= k' -> blank_within k' h.
Proof.
  intros [pre [post [m [H1 [H2 [H3 H4]]]]]] Hle.
  exists pre, post, m. repeat split; auto. lia.
Qed.

(** Trimming keeps the last 19 entries. *)
Lemma trimHistory_keeps_recent pre post :
  List.length post <= 19 ->
  exists pre', trimHistory (pre ++ post) = (pre' ++ post)%list.
Proof.
  intros Hpost.
  destruct (Nat.le_gt_cases (List.length (pre ++ post)) 20) as [Hle|Hgt].
  - exists pre. apply trimHistory_short. exact Hle.
  - destruct (trimHistory_long _ Hgt) as [first [rest [_ Ht]]].
    exists (first :: skipn (List.length (pre ++ post) - 19) pre).
    rewrite Ht, skipn_app. rewrite length_app in *.
    replace (List.length pre + List.length post - 19 - List.length pre) with 0 by lia.
    reflexivity.
Qed.

Lemma blank_new m h : content m = "" -> blank_within 1 (trimHistory (h ++ [m])).
Proof.
  intros Hm. destruct (trimHistory_keeps_recent h [m]) as [pre' Hp]; [simpl; lia|].
  exists pre', [m], m. rewrite Hp. repeat split; simpl; auto.
Qed.

Lemma blank_push k m h :
  blank_within k h -> k < 19 -> blank_within (S k) (trimHistory (h ++ [m])).
Proof.
  intros [pre [post [b [H1 [H2 [H3 H4]]]]]] Hk. subst h.
  rewrite <- app_assoc.
  destruct (trimHistory_keeps_recent pre (post ++ [m])) as [pre' Hp].
  { rewrite length_app. simpl. lia. }
  exists pre', (post ++ [m])%list, b. rewrite Hp. repeat split; auto.
  - rewrite length_app. simpl. lia.
  - apply in_or_app. left. exact H3.
Qed.

Lemma blank_is_refused k cm :
  blank_within k (messageHistory cm) ->
  existsb lacks_role_or_content (getFormattedHistory cm) = true.
Proof.
  intros [pre [post [m [H1 [_ [H3 H4]]]]]].
  apply existsb_exists. unfold getFormattedHistory.
  eexists. split.
  - apply in_map. rewrite H1. apply in_or_app. right. exact H3.
  - unfold lacks_role_or_content. simpl. rewrite H4. apply orb_true_r.
Qed.

(** With an entry of empty content in the transcript, the request for the
    next completion is refused by the client before it reaches the endpoint:
    [getFinalResponseAfterFunction] throws and nothing has changed. *)
Lemma getFinalResponse_refused processResponse k cm w :
  blank_within k (messageHistory cm) ->
  exists e,
    getFinalResponseAfterFunction_with processResponse (cm, w) = (Throw e, (cm, w))
    /\ (client (openaiClient cm) = true ->
        err_message e = "Failed to get final response after function execution: Each message must have role and content properties").
Proof.
  intros Hblank. pose proof (blank_is_refused k cm Hblank) as Hex.
  unfold getFinalResponseAfterFunction_with, try_catch, bind, the_object, lift_world.
  simpl. unfold createChatCompletion.
  destruct (client (openaiClient cm)); simpl.
  - destruct (getFormattedHistory cm) as [|m ms] eqn:Hh; [discriminate Hex|].
    rewrite Hex. simpl. eexists. split; [reflexivity|]. reflexivity.
  - eexists. split; [reflexivity|]. discriminate.
Qed.

Lemma executeFunctionSafely_returns functions name args options w :
  exists r w',
    FunctionRegistry.executeFunctionSafely functions name args options w = (Ret r, w')
    /\ api_calls w' = api_calls w.
Proof.
  unfold FunctionRegistry.executeFunctionSafely.
  unfold bind at 1. unfold Date_now at 1. cbv beta iota. unfold try_catch.
  unfold bind at 1.
  match goal with
  | |- context [FunctionRegistry.executeFunction functions name args ?w0] =>
      destruct (RegistryProps.executeFunction_runs functions name args w0)
        as [res [w1 [Hrun [Hends Hcalls]]]]
  end.
  rewrite Hrun. destruct res as [r|e|]; [| |contradiction Hends; reflexivity].
  - eexists. eexists. split; [reflexivity|]. exact Hcalls.
  - eexists. eexists. split; [reflexivity|]. exact Hcalls.
Qed.

(** The [catch] block of [handleFunctionCall] ends in the failure envelope
    whenever the transcript holds a recent entry of empty content. *)
Lemma function_call_failed_returns processResponse name error k cm w :
  blank_within k (messageHistory cm) -> k < 19 ->
  exists env cm' w',
    function_call_failed_with processResponse name error (cm, w) = (Ret env, (cm', w'))
    /\ failure_envelope env "FUNCTION_EXECUTION_ERROR"
    /\ env_message env
       = "I encountered an error while executing the function: " ++ err_message error
    /\ api_calls w' = api_calls w.
Proof.
  intros Hblank Hk. unfold function_call_failed_with.
  erewrite bind_ret by (apply addToHistory_text; reflexivity).
  match goal with
  | |- context [try_catch _ _ (?cm1, ?w1)] =>
      destruct (getFinalResponse_refused processResponse (S k) cm1 w1) as [e [He _]]
  end.
  { simpl. apply blank_push; assumption. }
  erewrite try_catch_throw by exact He.
  erewrite bind_ret by apply lift_Date_iso.
  eexists. eexists. eexists. split; [reflexivity|].
  split; [split; [reflexivity | eexists; split; reflexivity]|].
  split; reflexivity.
Qed.

(** The [try] block of [handleFunctionCall] always ends in a throw: after
    the assistant entry with empty content is appended, the next completion
    cannot be requested. *)
Lemma function_call_round_throws processResponse functionCall cm w :
  exists e cm' w',
    function_call_round_with processResponse functionCall (cm, w) = (Throw e, (cm', w'))
    /\ blank_within 2 (messageHistory cm')
    /\ api_calls w' = api_calls w.
Proof.
  unfold function_call_round_with.
  erewrite bind_ret by (apply addToHistory_text; reflexivity).
  set (cm1 := set_history _ cm).
  assert (Hb1 : blank_within 1 (messageHistory cm1)) by (apply blank_new; reflexivity).
  destruct (if String.eqb (fc_arguments functionCall) "" then inl (JObj [])
            else JSON_parse (fc_arguments functionCall)) as [functionArgs|parseError].
  - unfold the_registry at 1. unfold bind at 1. cbv beta iota.
    destruct (executeFunctionSafely_returns (functionRegistry cm1) (fc_name functionCall)
                functionArgs call_options (tick w)) as [r [w2 [Hr Hcalls]]].
    assert (Hlift : lift_world (FunctionRegistry.executeFunctionSafely
                                  (functionRegistry cm1) (fc_name functionCall)
                                  functionArgs call_options) (cm1, tick w)
                    = (Ret r, (cm1, w2))).
    { unfold lift_world. cbn [fst snd]. rewrite Hr. reflexivity. }
    simpl fst. erewrite bind_ret by exact Hlift.
    destruct (formatFunctionResult r (fc_name functionCall)) as [msg|e].
    + erewrite bind_ret by reflexivity.
      erewrite bind_ret by (apply addToHistory_text; reflexivity).
      match goal with
      | |- context [getFinalResponseAfterFunction_with _ (?cm2, ?w3)] =>
          destruct (getFinalResponse_refused processResponse 2 cm2 w3) as [e [He _]]
      end.
      { simpl. apply blank_push; [exact Hb1 | lia]. }
      rewrite He. eexists. eexists. eexists. split; [reflexivity|].
      split; [simpl; apply blank_push; [exact Hb1 | lia] | simpl; exact Hcalls].
    + erewrite bind_throw by reflexivity.
      eexists. eexists. eexists. split; [reflexivity|].
      split; [apply blank_within_mono with (k := 1); [exact Hb1 | lia] | exact Hcalls].
  - erewrite bind_ret by (apply addToHistory_text; reflexivity).
    match goal with
    | |- context [getFinalResponseAfterFunction_with _ (?cm2, ?w3)] =>
        destruct (getFinalResponse_refused processResponse 2 cm2 w3) as [e [He _]]
    end.
    { simpl. apply blank_push; [exact Hb1 | lia]. }
    rewrite He. eexists. eexists. eexists. split; [reflexivity|].
    split; [simpl; apply blank_push; [exact Hb1 | lia] | reflexivity].
Qed.

(** Whatever function the model asks for, [handleFunctionCall] returns the
    FUNCTION_EXECUTION_ERROR envelope without a further request to the
    endpoint, and never calls [processOpenAIResponse] again. *)
Lemma handleFunctionCall_fails processResponse functionCall cm w :
  exists env cm' w',
    handleFunctionCall_with processResponse functionCall (cm, w) = (Ret env, (cm', w'))
    /\ failure_envelope env "FUNCTION_EXECUTION_ERROR"
    /\ api_calls w' = api_calls w.
Proof.
  destruct (function_call_round_throws processResponse functionCall cm w)
    as [e [cm1 [w1 [Hround [Hblank Hcalls]]]]].
  destruct (function_call_failed_returns processResponse (fc_name functionCall) e 2 cm1 w1
              Hblank ltac:(lia)) as [env [cm2 [w2 [Hfail [Henv [_ Hcalls2]]]]]].
  exists env, cm2, w2. split; [|split; [exact Henv | congruence]].
  unfold handleFunctionCall_with. erewrite try_catch_throw by exact Hround. exact Hfail.
Qed.

(** *** Every turn completes *)

Lemma createChatCompletion_completes c messages w :
  fst (createChatCompletion c messages w) <> OutOfRounds.
Proof.
  unfold createChatCompletion.
  destruct (client c); simpl; [|discriminate].
  destruct messages as [|m ms]; [discriminate|].
  destruct (existsb lacks_role_or_content (m :: ms)); [discriminate|].
  destruct (ClientProps.retry_loop_runs (m :: ms) 3 4 0 None w eq_refl ltac:(lia))
    as [k [res [w' [Hrun [_ [_ [Hres _]]]]]]].
  unfold _executeWithRetry. rewrite Hrun. simpl.
  destruct (api w (api_calls w + k)); [subst; discriminate|].
  destruct Hres as [-> _]. discriminate.
Qed.

Lemma processOpenAIResponse_completes rounds response cm w :
  fst (processOpenAIResponse (S rounds) response (cm, w)) <> OutOfRounds.
Proof.
  simpl. destruct (r_function_call response) as [functionCall|].
  - destruct (handleFunctionCall_fails (processOpenAIResponse rounds) functionCall cm w)
      as [env [cm' [w' [H _]]]].
    erewrite try_catch_ret by exact H. discriminate.
  - unfold try_catch, bind, addToHistory. simpl.
    destruct (r_content response); simpl; discriminate.
Qed.

Lemma processing_failed_returns error cm w :
  exists env cm' w',
    processing_failed error (cm, w) = (Ret env, (cm', w'))
    /\ env_success env = false
    /\ messageHistory cm'
       = trimHistory (messageHistory cm
                        ++ [entry_at (tick w) "assistant" (env_message env) no_meta]).
Proof.
  unfold processing_failed.
  erewrite bind_ret by apply lift_Date_iso.
  erewrite bind_ret by (apply addToHistory_text; reflexivity).
  eexists. eexists. eexists. split; [reflexivity|]. split; reflexivity.
Qed.

Lemma process_turn_completes rounds userInput opts cm w :
  fst (process_turn (S rounds) userInput opts (cm, w)) <> OutOfRounds.
Proof.
  unfold process_turn.
  destruct (invalid_input userInput); [discriminate|].
  unfold the_object at 1. unfold bind at 1. cbv beta iota. cbn [fst].
  destruct (negb (isReady (openaiClient cm))); [discriminate|].
  erewrite bind_ret by (apply addToHistory_text; reflexivity).
  unfold the_object at 1. unfold bind at 1. cbv beta iota. cbn [fst].
  match goal with
  | |- context [lift_world (createChatCompletion ?c ?ms)] =>
      pose proof (createChatCompletion_completes c ms (tick w)) as Hc;
      unfold bind, lift_world; cbn [fst snd];
      destruct (createChatCompletion c ms (tick w)) as [[response|e|] w1]
  end; simpl in Hc; try discriminate; [|contradiction].
  apply processOpenAIResponse_completes.
Qed.

(** With a budget of at least one round, [processMessage] given an options
    object always returns an envelope: it neither throws nor runs on. *)
Lemma processMessage_returns rounds userInput opts cm w :
  exists env cm' w',
    processMessage (S rounds) userInput (Some opts) (cm, w) = (Ret env, (cm', w')).
Proof.
  unfold processMessage, try_catch.
  pose proof (process_turn_completes rounds userInput opts cm w) as Hc.
  destruct (process_turn (S rounds) userInput opts (cm, w)) as [[env|e|] [cm1 w1]];
    simpl in Hc; [| |contradiction].
  - eexists. eexists. eexists. reflexivity.
  - destruct (processing_failed_returns e cm1 w1) as [env [cm' [w' [H _]]]].
    eexists. eexists. eexists. exact H.
Qed.

(** C10. With a budget of at least one round, [generateResponse] completes,
    by returning or by throwing, and in both cases the transcript is the one
    it started with. *)
Theorem C10_generateResponse_restores_transcript
  (rounds : nat) (userInput : jsval) (options : option ProcessOptions)
  (cm : ChatManager) (w : World) :
  exists res cm' w',
    generateResponse (S rounds) userInput options (cm, w) = (res, (cm', w'))
    /\ res <> OutOfRounds
    /\ messageHistory cm' = messageHistory cm.
Proof.
  unfold generateResponse. unfold the_object at 1. unfold bind at 1. cbv beta iota.
  cbn [fst]. destruct options as [opts|].
  - destruct (processMessage_returns rounds userInput opts cm w) as [env [cm' [w' H]]].
    unfold try_catch. erewrite bind_ret by exact H.
    eexists. eexists. eexists. split; [reflexivity|]. split; [discriminate|reflexivity].
  - eexists. eexists. eexists. split; [reflexivity|]. split; [discriminate|reflexivity].
Qed.

End Transcript.


(** Witness of C8: the empty string on the sample conversation. *)
Lemma C8_witness :
  exists envelope cm' w',
    processMessage (rt := sample_runtime) 1 (JStr "") (Some default_options)
      (sample_manager, busy_world) = (Ret envelope, (cm', w'))
    /\ env_success envelope = false
    /\ (exists m, role m = "assistant"
                  /\ messageHistory cm' = trimHistory (messageHistory sample_manager ++ [m]))
    /\ (forall m, In m (messageHistory cm') -> role m = "user"
                  -> In m (messageHistory sample_manager)).
Proof.
  apply (C8_invalid_input_appends_no_user_message (rt := sample_runtime) 1 sample_manager
           busy_world (JStr "") default_options).
  intros s H. inversion H. reflexivity.
Defined.

(** *** The scenario of the transcript-ordering property *)

(** C2 (fails on the code). The user asks "What time is it?"; the endpoint
    would answer with a call of [getCurrentTime] and then with "It is noon".
    After the function result is appended, the transcript holds the assistant
    entry with empty content that [handleFunctionCall] wrote, and
    [createChatCompletion] refuses any transcript with such an entry: the
    second completion is never requested. The turn ends in a failure envelope
    and the transcript ends user, assistant, function, function. *)
Theorem C2_second_completion_is_never_requested (rounds : nat) :
  exists env cm' w',
    processMessage (rt := sample_runtime) (S rounds) (JStr "What time is it?")
      (Some default_options) (sample_manager, noon_world) = (Ret env, (cm', w'))
    /\ env_success env = false
    /\ env_message env
       = "I encountered an error while executing the function: Failed to get final response after function execution: Each message must have role and content properties"
    /\ option_map ee_type (env_error env) = Some "FUNCTION_EXECUTION_ERROR"
    /\ map (fun m => (role m, content m)) (messageHistory cm')
       = [ ("system", content (systemMessage sample_manager));
           ("user", "What time is it?");
           ("assistant", "");
           ("function", "2024-01-01T12:00:00.000Z");
           ("function", "Function execution failed: Failed to get final response after function execution: Each message must have role and content properties") ]
    /\ api_calls w' = 1.
Proof.
  match goal with
  | |- exists env cm' w', ?run = _ /\ _ =>
      let v := eval vm_compute in run in
      assert (Hrun : run = v) by (vm_compute; reflexivity);
      rewrite Hrun
  end.
  eexists. eexists. eexists. split; [reflexivity|].
  vm_compute. repeat split.
Qed.

End ChatProps.

(* ===================================================================== *)
(** ** Further properties of the function registry                        *)
(* ===================================================================== *)

Module RegistryExtras.
Import JS.
Import FunctionRegistry.
Import Samples.
Import RegistryNotions.
Import ExtraNotions.
Local Open Scope string_scope.

Lemma Map_set_get_same {A : Type} (k : string) (v : A) m :
  Map_get k (Map_set k v m) = Some v.
Proof.
  unfold Map_get. induction m as [|[k0 v0] m IH]; simpl.
  - rewrite String.eqb_refl. reflexivity.
  - destruct (String.eqb k k0) eqn:E; simpl.
    + rewrite String.eqb_refl. reflexivity.
    + rewrite E. exact IH.
Qed.

Lemma Map_set_get_other {A : Type} (k k' : string) (v : A) m :
  k' <> k -> Map_get k' (Map_set k v m) = Map_get k' m.
Proof.
  intros Hne. unfold Map_get. induction m as [|[k0 v0] m IH]; simpl.
  - apply String.eqb_neq in Hne. rewrite Hne. reflexivity.
  - destruct (String.eqb k k0) eqn:E; simpl.
    + apply String.eqb_eq in E. subst k0.
      apply String.eqb_neq in Hne. rewrite Hne. reflexivity.
    + destruct (String.eqb k' k0); [reflexivity | exact IH].
Qed.

Lemma Map_set_keys_known {A : Type} (k : string) (v : A) m :
  Map_has k m = true -> keys (Map_set k v m) = keys m.
Proof.
  unfold Map_has. induction m as [|[k0 v0] m IH]; simpl; [discriminate|].
  destruct (String.eqb k k0) eqn:E; simpl.
  - intros _. apply String.eqb_eq in E. subst. reflexivity.
  - intros H. rewrite IH by exact H. reflexivity.
Qed.

Lemma Map_set_new {A : Type} (k : string) (v : A) m :
  Map_has k m = false -> Map_set k v m = (m ++ [(k, v)])%list.
Proof.
  unfold Map_has. induction m as [|[k0 v0] m IH]; simpl; [reflexivity|].
  destruct (String.eqb k k0) eqn:E; simpl; [discriminate|].
  intros H. rewrite IH by exact H. reflexivity.
Qed.

Lemma Map_delete_get_same {A : Type} (k : string) (m : list (string * A)) :
  Map_get k (Map_delete k m) = None.
Proof.
  unfold Map_get, Map_delete. induction m as [|[k0 v0] m IH]; simpl; [reflexivity|].
  destruct (String.eqb k k0) eqn:E; simpl; [exact IH|]. rewrite E. exact IH.
Qed.

Lemma Map_delete_get_other {A : Type} (k k' : string) (m : list (string * A)) :
  k' <> k -> Map_get k' (Map_delete k m) = Map_get k' m.
Proof.
  intros Hne. unfold Map_get, Map_delete. induction m as [|[k0 v0] m IH]; simpl; [reflexivity|].
  destruct (String.eqb k k0) eqn:E; simpl.
  - apply String.eqb_eq in E. subst k0. apply String.eqb_neq in Hne. rewrite Hne. exact IH.
  - destruct (String.eqb k' k0); [reflexivity | exact IH].
Qed.

Lemma Map_delete_absent {A : Type} (k : string) (m : list (string * A)) :
  Map_has k m = false -> Map_delete k m = m.
Proof.
  unfold Map_has, Map_delete. induction m as [|[k0 v0] m IH]; simpl; [reflexivity|].
  destruct (String.eqb k k0) eqn:E; simpl; [discriminate|].
  intros H. rewrite IH by exact H. reflexivity.
Qed.

(** X1. A registration that passes the checks binds the name to exactly the
    schema and handler given, replacing any earlier binding, and changes the
    binding of no other name. *)
Theorem X1_register_then_lookup name schema handler functions :
  name <> "" ->
  validateSchema schema = true ->
  fst (registerFunction name schema handler functions) = Ret tt
  /\ Map_get name (snd (registerFunction name schema handler functions))
     = Some (mkFunctionData schema handler name)
  /\ hasFunction (snd (registerFunction name schema handler functions)) name = true
  /\ (forall other, other <> name ->
        Map_get other (snd (registerFunction name schema handler functions))
        = Map_get other functions).
Proof.
  intros Hname Hschema. unfold registerFunction.
  apply String.eqb_neq in Hname. rewrite Hname, Hschema. simpl.
  split; [reflexivity|]. split; [apply Map_set_get_same|]. split.
  - unfold hasFunction, Map_has. fold (Map_get name (Map_set name (mkFunctionData schema handler name) functions)).
    rewrite Map_set_get_same. reflexivity.
  - intros other Hother. apply Map_set_get_other. exact Hother.
Qed.

(** X2. The registry lists functions in the order of their first
    registration: registering a new name puts the name and its schema last,
    registering a known name again leaves the list of names as it is. *)
Theorem X2_listing_follows_first_registration name schema handler functions :
  name <> "" ->
  validateSchema schema = true ->
  (hasFunction functions name = false ->
     getRegisteredFunctions (snd (registerFunction name schema handler functions))
     = (getRegisteredFunctions functions ++ [name])%list
     /\ getFunctionSchemas (snd (registerFunction name schema handler functions))
        = (getFunctionSchemas functions ++ [schema])%list)
  /\
  (hasFunction functions name = true ->
     getRegisteredFunctions (snd (registerFunction name schema handler functions))
     = getRegisteredFunctions functions).
Proof.
  intros Hname Hschema. unfold registerFunction.
  apply String.eqb_neq in Hname. rewrite Hname, Hschema. simpl.
  unfold hasFunction, getRegisteredFunctions, getFunctionSchemas. split; intros H.
  - rewrite Map_set_new by exact H. unfold keys. rewrite !map_app. split; reflexivity.
  - apply Map_set_keys_known. exact H.
Qed.

(** X3. [unregisterFunction] tells whether the name was registered; after
    it the name is not registered, every other binding is as before, and
    removing a name that is not registered changes nothing. *)
Theorem X3_unregister name functions :
  fst (unregisterFunction name functions) = Ret (hasFunction functions name)
  /\ hasFunction (snd (unregisterFunction name functions)) name = false
  /\ (forall other, other <> name ->
        Map_get other (snd (unregisterFunction name functions)) = Map_get other functions)
  /\ (hasFunction functions name = false -> snd (unregisterFunction name functions) = functions).
Proof.
  simpl. split; [reflexivity|]. split; [|split].
  - unfold hasFunction, Map_has.
    fold (Map_get name (Map_delete name functions)).
    rewrite Map_delete_get_same. reflexivity.
  - intros other Hother. apply Map_delete_get_other. exact Hother.
  - apply Map_delete_absent.
Qed.

Lemma Map_has_get {A : Type} (k : string) (m : list (string * A)) :
  Map_has k m = true <-> exists v, Map_get k m = Some v.
Proof.
  unfold Map_has, Map_get. destruct (lookup k m) as [v|].
  - split; [intros _; exists v; reflexivity | reflexivity].
  - split; [discriminate | intros [v H]; discriminate H].
Qed.

Lemma Map_set_has_kept {A : Type} (k k' : string) (v : A) m :
  Map_has k' m = true -> Map_has k' (Map_set k v m) = true.
Proof.
  intros H. destruct (String.eqb_spec k' k) as [->|Hne].
  - apply Map_has_get. exists v. apply Map_set_get_same.
  - apply Map_has_get. apply Map_has_get in H. destruct H as [v' H].
    exists v'. rewrite Map_set_get_other by exact Hne. exact H.
Qed.

Lemma validateSchema_name schema : validateSchema schema = true -> s_name schema <> "".
Proof.
  unfold validateSchema. destruct (String.eqb_spec (s_name schema) ""); [discriminate|auto].
Qed.

Lemma registerBuiltInFunctions_all schemas handlers :
  forall functions,
  (forall s, In s schemas -> validateSchema s = true /\ handlers (s_name s) <> None) ->
  exists functions',
    registerBuiltInFunctions schemas handlers functions = (Ret tt, functions')
    /\ (forall k, Map_has k functions = true -> Map_has k functions' = true)
    /\ (forall k fd, Map_get k functions' = Some fd ->
          Map_get k functions = Some fd \/ from_builtins schemas handlers k fd).
Proof.
  induction schemas as [|schema rest IH]; intros functions Hall.
  - exists functions. simpl. split; [reflexivity|]. split; auto.
  - destruct (Hall schema (or_introl eq_refl)) as [Hvalid Hhandler].
    simpl. destruct (handlers (s_name schema)) as [handler|] eqn:Hh; [|contradiction].
    unfold bind, registerFunction.
    pose proof (validateSchema_name schema Hvalid) as Hname.
    apply String.eqb_neq in Hname. rewrite Hname, Hvalid. simpl.
    destruct (IH (Map_set (s_name schema)
                    (mkFunctionData schema handler (s_name schema)) functions))
      as [functions' [Hrun [Hkept Hfrom]]].
    { intros s Hs. apply Hall. right. exact Hs. }
    exists functions'. split; [exact Hrun|]. split.
    + intros k Hk. apply Hkept. apply Map_set_has_kept. exact Hk.
    + intros k fd Hget. destruct (Hfrom k fd Hget) as [Hold|Hnew].
      * destruct (String.eqb_spec k (s_name schema)) as [->|Hne].
        -- rewrite Map_set_get_same in Hold. inversion Hold; subst fd.
           right. unfold from_builtins. simpl. auto.
        -- rewrite Map_set_get_other in Hold by exact Hne. left. exact Hold.
      * right. unfold from_builtins in *. destruct Hnew as [H1 [H2 [H3 H4]]].
        repeat split; auto. right. exact H1.
Qed.

Lemma from_builtins_later schema rest handlers k fd :
  from_builtins rest handlers k fd -> from_builtins (schema :: rest) handlers k fd.
Proof.
  unfold from_builtins. intros [H1 [H2 [H3 H4]]]. repeat split; auto. right. exact H1.
Qed.

Lemma registerBuiltInFunctions_step schema rest handlers handler functions :
  validateSchema schema = true ->
  handlers (s_name schema) = Some handler ->
  registerBuiltInFunctions (schema :: rest) handlers functions
  = registerBuiltInFunctions rest handlers
      (Map_set (s_name schema) (mkFunctionData schema handler (s_name schema)) functions).
Proof.
  intros Hvalid Hh. simpl. rewrite Hh. unfold bind, registerFunction.
  pose proof (validateSchema_name schema Hvalid) as Hname.
  apply String.eqb_neq in Hname. rewrite Hname, Hvalid. reflexivity.
Qed.

Lemma registerBuiltInFunctions_each schemas handlers :
  (forall s, In s schemas -> validateSchema s = true /\ handlers (s_name s) <> None) ->
  forall functions s, In s schemas ->
  exists fd,
    Map_get (s_name s) (snd (registerBuiltInFunctions schemas handlers functions)) = Some fd
    /\ from_builtins schemas handlers (s_name s) fd.
Proof.
  induction schemas as [|schema rest IH]; intros Hall functions s Hs; [contradiction|].
  destruct (Hall schema (or_introl eq_refl)) as [Hvalid Hhandler].
  destruct (handlers (s_name schema)) as [handler|] eqn:Hh; [|contradiction].
  rewrite (registerBuiltInFunctions_step schema rest handlers handler functions Hvalid Hh).
  assert (Hrest : forall s', In s' rest ->
                    validateSchema s' = true /\ handlers (s_name s') <> None).
  { intros s' Hs'. apply Hall. right. exact Hs'. }
  set (f1 := Map_set (s_name schema) (mkFunctionData schema handler (s_name schema)) functions).
  destruct Hs as [<-|Hs].
  - destruct (registerBuiltInFunctions_all rest handlers f1 Hrest)
      as [functions' [Hrun [Hkept Hfrom]]].
    rewrite Hrun. simpl.
    assert (Hhas : Map_has (s_name schema) functions' = true).
    { apply Hkept. apply Map_has_get. eexists. apply Map_set_get_same. }
    apply Map_has_get in Hhas. destruct Hhas as [fd Hfd]. exists fd. split; [exact Hfd|].
    destruct (Hfrom _ _ Hfd) as [Hold|Hnew].
    + unfold f1 in Hold. rewrite Map_set_get_same in Hold. inversion Hold; subst fd.
      unfold from_builtins. simpl. auto.
    + apply from_builtins_later. exact Hnew.
  - destruct (IH Hrest f1 s Hs) as [fd [Hfd Hfrom]].
    exists fd. split; [exact Hfd | apply from_builtins_later; exact Hfrom].
Qed.

(** X4. When every schema of the list is valid and has a handler,
    [registerBuiltInFunctions] returns, keeps what was registered before, and
    afterwards each schema's name is bound to a schema of the list that
    carries that name, with the handler found under that name. *)
Theorem X4_builtins_all_registered schemas handlers functions :
  (forall s, In s schemas -> validateSchema s = true /\ handlers (s_name s) <> None) ->
  fst (registerBuiltInFunctions schemas handlers functions) = Ret tt
  /\ (forall k, hasFunction functions k = true ->
        hasFunction (snd (registerBuiltInFunctions schemas handlers functions)) k = true)
  /\ (forall s, In s schemas ->
        exists fd,
          Map_get (s_name s) (snd (registerBuiltInFunctions schemas handlers functions))
            = Some fd
          /\ from_builtins schemas handlers (s_name s) fd).
Proof.
  intros Hall.
  destruct (registerBuiltInFunctions_all schemas handlers functions Hall)
    as [functions' [Hrun [Hkept _]]].
  split; [rewrite Hrun; reflexivity|]. split.
  - rewrite Hrun. exact Hkept.
  - apply registerBuiltInFunctions_each. exact Hall.
Qed.

Lemma registerBuiltInFunctions_app pre rest handlers :
  forall functions functions',
  registerBuiltInFunctions pre handlers functions = (Ret tt, functions') ->
  registerBuiltInFunctions (pre ++ rest) handlers functions
  = registerBuiltInFunctions rest handlers functions'.
Proof.
  induction pre as [|schema pre IH]; intros functions functions' Hrun.
  - simpl in *. inversion Hrun. reflexivity.
  - simpl in *. destruct (handlers (s_name schema)) as [handler|]; [|discriminate].
    unfold bind in *.
    destruct (registerFunction (s_name schema) schema handler functions) as [[[]|e|] f1];
      try discriminate.
    apply IH. exact Hrun.
Qed.

(** X5. Bulk registration is not atomic: when a schema of the list has no
    handler, [registerBuiltInFunctions] throws at that schema, the schemas
    before it stay registered and the ones after it are not looked at. *)
Theorem X5_builtins_stop_at_missing_handler pre schema post handlers functions :
  (forall s, In s pre -> validateSchema s = true /\ handlers (s_name s) <> None) ->
  handlers (s_name schema) = None ->
  registerBuiltInFunctions (pre ++ schema :: post) handlers functions
  = (Throw (new_Error ("No handler found for function: " ++ s_name schema)),
     snd (registerBuiltInFunctions pre handlers functions))
  /\ (forall s, In s pre ->
        hasFunction (snd (registerBuiltInFunctions pre handlers functions)) (s_name s) = true).
Proof.
  intros Hall Hmissing.
  destruct (registerBuiltInFunctions_all pre handlers functions Hall)
    as [functions' [Hrun _]].
  split.
  - rewrite (registerBuiltInFunctions_app pre (schema :: post) handlers _ _ Hrun).
    rewrite Hrun. simpl. rewrite Hmissing. reflexivity.
  - intros s Hs.
    destruct (registerBuiltInFunctions_each pre handlers Hall functions s Hs) as [fd [Hfd _]].
    unfold hasFunction. apply Map_has_get. exists fd. exact Hfd.
Qed.

(** X6. Once a name is unregistered, executing it reports FUNCTION_NOT_FOUND
    with the name in the message; no timer is set and no handler is called. *)
Theorem X6_execute_after_unregister {rt : Runtime} name functions args w :
  executeFunction (snd (unregisterFunction name functions)) name args w
  = (Ret (failure_result ("Function '" ++ name ++ "' not found") "FUNCTION_NOT_FOUND"
            no_metadata w), tick w)
  /\ trace (tick w) = trace w.
Proof.
  split; [|reflexivity]. unfold executeFunction. simpl.
  rewrite Map_delete_get_same. reflexivity.
Qed.


(** Witnesses of X1, X2, X4 and X5 on the sample registry. *)
Lemma X1_witness :
  fst (registerFunction "greet" greet_schema hangs sample_registry) = Ret tt
  /\ Map_get "greet" (snd (registerFunction "greet" greet_schema hangs sample_registry))
     = Some (mkFunctionData greet_schema hangs "greet")
  /\ hasFunction (snd (registerFunction "greet" greet_schema hangs sample_registry)) "greet"
     = true
  /\ (forall other, other <> "greet" ->
        Map_get other (snd (registerFunction "greet" greet_schema hangs sample_registry))
        = Map_get other sample_registry).
Proof.
  apply (X1_register_then_lookup "greet" greet_schema hangs sample_registry);
    [discriminate | reflexivity].
Defined.

Lemma X2_witness :
  getRegisteredFunctions (snd (registerFunction "setAge" strict_schema hangs sample_registry))
  = (getRegisteredFunctions sample_registry ++ ["setAge"])%list
  /\ getRegisteredFunctions (snd (registerFunction "greet" greet_schema hangs sample_registry))
     = getRegisteredFunctions sample_registry.
Proof.
  split.
  - apply (proj1 (X2_listing_follows_first_registration "setAge" strict_schema hangs
                    sample_registry ltac:(discriminate) eq_refl)). reflexivity.
  - apply (proj2 (X2_listing_follows_first_registration "greet" greet_schema hangs
                    sample_registry ltac:(discriminate) eq_refl)). reflexivity.
Defined.

Lemma sample_schemas_have_handlers :
  forall s, In s [greet_schema; calculateMath_schema] ->
  validateSchema s = true /\ sample_handlers (s_name s) <> None.
Proof.
  intros s [<-|[<-|[]]]; split; try reflexivity; discriminate.
Qed.

Lemma X4_witness :
  fst (registerBuiltInFunctions [greet_schema; calculateMath_schema] sample_handlers
         constructor) = Ret tt
  /\ hasFunction (snd (registerBuiltInFunctions [greet_schema; calculateMath_schema]
                         sample_handlers constructor)) "calculateMath" = true.
Proof.
  destruct (X4_builtins_all_registered [greet_schema; calculateMath_schema] sample_handlers
              constructor sample_schemas_have_handlers) as [H1 [_ H3]].
  split; [exact H1|]. reflexivity.
Defined.

Lemma X5_witness :
  registerBuiltInFunctions
    ([greet_schema; calculateMath_schema] ++ strict_schema :: [required_only_schema])
    sample_handlers constructor
  = (Throw (new_Error ("No handler found for function: " ++ "setAge")),
     snd (registerBuiltInFunctions [greet_schema; calculateMath_schema] sample_handlers
            constructor)).
Proof.
  apply (X5_builtins_stop_at_missing_handler [greet_schema; calculateMath_schema]
           strict_schema [required_only_schema] sample_handlers constructor
           sample_schemas_have_handlers eq_refl).
Defined.


(** *** Validation *)

Section ValidationExtras.
Context {rt : Runtime}.

Lemma num_lt_Fin x y : num_lt (Fin x) (Fin y) = true <-> (x < y)%Q.
Proof.
  simpl. rewrite negb_true_iff. split.
  - intros H. apply Qnot_le_lt. intros Hle. apply Qle_bool_iff in Hle. congruence.
  - intros H. destruct (Qle_bool y x) eqn:E; [|reflexivity].
    apply Qle_bool_iff in E. exfalso. exact (Qlt_not_le _ _ H E).
Qed.

Lemma num_lt_Fin_false x y : num_lt (Fin x) (Fin y) = false <-> (y <= x)%Q.
Proof.
  simpl. rewrite negb_false_iff. apply Qle_bool_iff.
Qed.

Lemma num_lt_nat a b : num_lt (num_of_nat a) (num_of_nat b) = Nat.ltb a b.
Proof.
  unfold num_of_nat. destruct (Nat.ltb_spec a b) as [H|H].
  - apply num_lt_Fin. rewrite <- Zlt_Qlt. lia.
  - apply num_lt_Fin_false. rewrite <- Zle_Qle. lia.
Qed.

Lemma type_is_of schema t t' :
  ps_type schema = Some t -> type_is schema t' = String.eqb t t'.
Proof. unfold type_is. intros ->. reflexivity. Qed.

(** X8. For a parameter declared as a number (or integer) with a minimum
    and a maximum and no enum, a finite value passes the constraint check
    exactly when it lies between the two bounds, ends included; below the
    minimum the message names the minimum, above the maximum the maximum. *)
Theorem X8_number_within_bounds (schema : PropSchema) (paramName : string) (lo hi q : Q) :
  ps_type schema = Some "number" \/ ps_type schema = Some "integer" ->
  ps_minimum schema = Some (Fin lo) ->
  ps_maximum schema = Some (Fin hi) ->
  ps_enum schema = None ->
  ((lo <= q)%Q -> (q <= hi)%Q ->
     validateParameterConstraints (JNum (Fin q)) schema paramName = Ok Valid)
  /\ ((q < lo)%Q ->
        validateParameterConstraints (JNum (Fin q)) schema paramName
        = Ok (Invalid ("Parameter '" ++ paramName ++ "' must be at least "
                         ++ num_to_string (Fin lo))))
  /\ ((lo <= q)%Q -> (hi < q)%Q ->
        validateParameterConstraints (JNum (Fin q)) schema paramName
        = Ok (Invalid ("Parameter '" ++ paramName ++ "' must be at most "
                         ++ num_to_string (Fin hi)))).
Proof.
  intros Htype Hmin Hmax Henum.
  assert (Hshape : type_is schema "string" = false
                   /\ (type_is schema "number" || type_is schema "integer") = true
                   /\ type_is schema "array" = false).
  { destruct Htype as [H|H]; rewrite !(type_is_of _ _ _ H); auto. }
  destruct Hshape as [Hs [Hn Ha]].
  unfold validateParameterConstraints, check_number, check_array, check_enum, check_bound.
  rewrite Hs, Hn, Ha, Hmin, Hmax, Henum. unfold num_gt, to_number.
  split; [|split].
  - intros H1 H2. apply num_lt_Fin_false in H1. apply num_lt_Fin_false in H2.
    rewrite H1, H2. reflexivity.
  - intros H. apply num_lt_Fin in H. rewrite H. reflexivity.
  - intros H1 H2. apply num_lt_Fin_false in H1. apply num_lt_Fin in H2.
    rewrite H1, H2. reflexivity.
Qed.

(** X9. For a parameter declared as a string with [minLength] and
    [maxLength], no pattern and no enum, a string passes the constraint check
    exactly when its length lies between the two bounds, ends included. *)
Theorem X9_string_length_within_bounds (schema : PropSchema) (paramName : string)
  (lo hi : nat) (s : string) :
  ps_type schema = Some "string" ->
  ps_minLength schema = Some (num_of_nat lo) ->
  ps_maxLength schema = Some (num_of_nat hi) ->
  ps_pattern schema = None ->
  ps_enum schema = None ->
  (lo <= String.length s -> String.length s <= hi ->
     validateParameterConstraints (JStr s) schema paramName = Ok Valid)
  /\ (String.length s < lo ->
        validateParameterConstraints (JStr s) schema paramName
        = Ok (Invalid ("Parameter '" ++ paramName ++ "' must be at least "
                         ++ num_to_string (num_of_nat lo) ++ " characters long")))
  /\ (lo <= String.length s -> hi < String.length s ->
        validateParameterConstraints (JStr s) schema paramName
        = Ok (Invalid ("Parameter '" ++ paramName ++ "' must be at most "
                         ++ num_to_string (num_of_nat hi) ++ " characters long"))).
Proof.
  intros Htype Hmin Hmax Hpat Henum.
  unfold validateParameterConstraints, check_pattern, check_number, check_array,
    check_enum, check_bound, length_lt, length_gt, num_gt.
  rewrite !(type_is_of _ _ _ Htype), Hmin, Hmax, Hpat, Henum. simpl length_of. cbv iota.
  rewrite !num_lt_nat. simpl String.eqb. simpl orb. cbv iota.
  split; [|split].
  - intros H1 H2.
    destruct (Nat.ltb_spec (String.length s) lo); [lia|].
    destruct (Nat.ltb_spec hi (String.length s)); [lia|]. reflexivity.
  - intros H. destruct (Nat.ltb_spec (String.length s) lo); [reflexivity|lia].
  - intros H1 H2.
    destruct (Nat.ltb_spec (String.length s) lo); [lia|].
    destruct (Nat.ltb_spec hi (String.length s)); [reflexivity|lia].
Qed.

(** X10. For a parameter declared as an array with [minItems] and
    [maxItems] and no enum, an array passes the constraint check exactly when
    its number of items lies between the two bounds, ends included. *)
Theorem X10_array_items_within_bounds (schema : PropSchema) (paramName : string)
  (lo hi : nat) (items : list jsval) :
  ps_type schema = Some "array" ->
  ps_minItems schema = Some (num_of_nat lo) ->
  ps_maxItems schema = Some (num_of_nat hi) ->
  ps_enum schema = None ->
  (lo <= List.length items -> List.length items <= hi ->
     validateParameterConstraints (JArr items) schema paramName = Ok Valid)
  /\ (List.length items < lo ->
        validateParameterConstraints (JArr items) schema paramName
        = Ok (Invalid ("Parameter '" ++ paramName ++ "' must have at least "
                         ++ num_to_string (num_of_nat lo) ++ " items")))
  /\ (lo <= List.length items -> hi < List.length items ->
        validateParameterConstraints (JArr items) schema paramName
        = Ok (Invalid ("Parameter '" ++ paramName ++ "' must have at most "
                         ++ num_to_string (num_of_nat hi) ++ " items"))).
Proof.
  intros Htype Hmin Hmax Henum.
  unfold validateParameterConstraints, check_pattern, check_number, check_array,
    check_enum, check_bound, length_lt, length_gt, num_gt.
  rewrite !(type_is_of _ _ _ Htype), Hmin, Hmax, Henum. simpl length_of. cbv iota.
  rewrite !num_lt_nat. simpl String.eqb. simpl orb. cbv iota.
  split; [|split].
  - intros H1 H2.
    destruct (Nat.ltb_spec (List.length items) lo); [lia|].
    destruct (Nat.ltb_spec hi (List.length items)); [lia|]. reflexivity.
  - intros H. destruct (Nat.ltb_spec (List.length items) lo); [reflexivity|lia].
  - intros H1 H2.
    destruct (Nat.ltb_spec (List.length items) lo); [lia|].
    destruct (Nat.ltb_spec hi (List.length items)); [reflexivity|lia].
Qed.

Lemma check_required_own required aprops :
  (forall k, In k required -> In k (keys aprops)) ->
  check_required required (JObj aprops) = Valid.
Proof.
  intros H. apply RegistryProps.check_required_present.
  intros k Hk. unfold js_in. apply orb_true_iff. left.
  apply RegistryProps.mem_string_In. apply H. exact Hk.
Qed.

(** X11. Arguments the schema does not declare are refused only when
    [additionalProperties] is [false]: then, for arguments that pass the
    required, type and constraint checks, validation fails exactly when some
    key is undeclared, and the message lists the undeclared keys in their
    order; otherwise such arguments pass, whatever extra keys they carry. *)
Theorem X11_undeclared_arguments (parameters : Parameters)
  (properties : list (string * PropSchema)) (aprops : list (string * jsval)) :
  p_properties parameters = Some properties ->
  (forall required, p_required parameters = Some required ->
     forall k, In k required -> In k (keys aprops)) ->
  (forall k v, In (k, v) aprops -> check_entry properties k v = Ok Valid) ->
  (p_additionalProperties parameters = Some false ->
     (undeclared properties aprops = [] ->
        validateArguments (JObj aprops) parameters = Ok Valid)
     /\ (undeclared properties aprops <> [] ->
           validateArguments (JObj aprops) parameters
           = Ok (Invalid ("Unexpected parameters: "
                            ++ join ", " (undeclared properties aprops)))))
  /\ (p_additionalProperties parameters <> Some false ->
        validateArguments (JObj aprops) parameters = Ok Valid).
Proof.
  intros Hprops Hreq Hentries.
  assert (Hrun : validateArguments (JObj aprops) parameters
                 = Ok (check_additional parameters properties (JObj aprops))).
  { unfold validateArguments. rewrite Hprops. simpl.
    destruct (p_required parameters) as [required|] eqn:Hr.
    - rewrite (check_required_own required aprops (Hreq required eq_refl)).
      rewrite (RegistryProps.check_entries_valid properties aprops Hentries). reflexivity.
    - rewrite (RegistryProps.check_entries_valid properties aprops Hentries). reflexivity. }
  rewrite Hrun. unfold check_additional. simpl object_entries.
  fold (undeclared properties aprops). split.
  - intros ->. split.
    + intros ->. reflexivity.
    + intros Hne. destruct (undeclared properties aprops); [contradiction|reflexivity].
  - intros Hne. destruct (p_additionalProperties parameters) as [[|]|];
      try reflexivity. contradiction.
Qed.

Lemma check_entries_skip properties before k v after :
  (forall k' v', In (k', v') before -> check_entry properties k' v' = Ok Valid) ->
  check_entries properties (before ++ (k, v) :: after)
  = match check_entry properties k v with
    | Ok Valid => check_entries properties after
    | other => other
    end.
Proof.
  induction before as [|[k0 v0] before IH]; intros H; [reflexivity|].
  simpl. rewrite (H k0 v0 (or_introl eq_refl)).
  apply IH. intros k' v' Hin. apply H. right. exact Hin.
Qed.

(** X12. An argument whose value does not have the type its schema declares
    makes [executeFunction] fail with VALIDATION_ERROR: when the required keys
    are present and the entries before it pass, the message names the
    argument, the declared type and the JavaScript type of the value, and the
    handler is not called. *)
Theorem X12_wrong_type_is_refused functions name fd parameters properties
  (before after : list (string * jsval)) (k : string) (v : jsval)
  (ps : PropSchema) (t : string) (w : World) :
  Map_get name functions = Some fd ->
  s_parameters (fd_schema fd) = Some parameters ->
  p_properties parameters = Some properties ->
  (forall required, p_required parameters = Some required ->
     forall r, In r required -> In r (keys (before ++ (k, v) :: after))) ->
  (forall k' v', In (k', v') before -> check_entry properties k' v' = Ok Valid) ->
  lookup k properties = Some ps ->
  ps_type ps = Some t -> t <> "" ->
  validateParameterType v t = false ->
  executeFunction functions name (JObj (before ++ (k, v) :: after)) w
  = (Ret (validation_failure
            ("Invalid type for parameter '" ++ k ++ "': expected " ++ t ++ ", got "
               ++ typeof v) w), tick w)
  /\ trace (tick w) = trace w.
Proof.
  intros Hget Hp Hprops Hreq Hbefore Hlookup Htype Ht Hbad.
  split; [|reflexivity].
  apply RegistryProps.executeFunction_invalid with (fd := fd) (parameters := parameters); auto.
  simpl default_args. unfold validateArguments. rewrite Hprops. simpl.
  assert (Hr : match p_required parameters with
               | Some required => check_required required (JObj (before ++ (k, v) :: after))
               | None => Valid
               end = Valid).
  { destruct (p_required parameters) as [required|] eqn:Hr; [|reflexivity].
    apply check_required_own. apply Hreq. reflexivity. }
  rewrite Hr. simpl object_entries.
  rewrite (check_entries_skip properties before k v after Hbefore).
  unfold check_entry. rewrite Hlookup, Htype, Hbad.
  apply String.eqb_neq in Ht. rewrite Ht. reflexivity.
Qed.

(** *** Sanitisation *)

Lemma jsval_nested_ind (P : jsval -> Prop) :
  (forall v, match v with
             | JArr _ | JObj _ | JError _ _ _ _ => True
             | _ => P v
             end) ->
  (forall items, Forall P items -> P (JArr items)) ->
  (forall props, Forall (fun kv => P (snd kv)) props -> P (JObj props)) ->
  (forall n m s props, Forall (fun kv => P (snd kv)) props -> P (JError n m s props)) ->
  forall v, P v.
Proof.
  intros Hleaf Harr Hobj Herr. fix IH 1. intros v.
  destruct v as [| |b|n|z|s|d|f|items|props|n m s props];
    try (match goal with |- P ?x => exact (Hleaf x) end).
  - apply Harr. induction items as [|x items IHl]; constructor; [apply IH | exact IHl].
  - apply Hobj. induction props as [|[k x] props IHl]; constructor; [apply IH | exact IHl].
  - apply Herr. induction props as [|[k x] props IHl]; constructor; [apply IH | exact IHl].
Qed.

Lemma collect_accepted (entries : list (string * (bool * jsval))) :
  (forall e, In e entries -> stringify_throws (snd (snd e)) = false) ->
  existsb (fun kv => stringify_throws (snd kv)) (collect entries) = false.
Proof.
  induction entries as [|[k [b x]] entries IH]; intros H; [reflexivity|].
  unfold collect in *. simpl. destruct b; simpl.
  - apply IH. intros e He. apply H. right. exact He.
  - pose proof (H (k, (false, x)) (or_introl eq_refl)) as Hx. simpl in Hx.
    rewrite Hx. simpl.
    apply IH. intros e He. apply H. right. exact He.
Qed.

Lemma sanitizeResult_accepted (v : jsval) :
  stringify_throws (sanitizeResult v) = false.
Proof.
  revert v.
  apply (jsval_nested_ind (fun v => stringify_throws (sanitizeResult v) = false)).
  - intros v. destruct v; try exact I; reflexivity.
  - intros items H.
    simpl. destruct (existsb stringify_throws items) eqn:E; simpl; [|exact E].
    rewrite existsb_app. simpl. rewrite orb_false_r.
    apply collect_accepted. intros [k [b x]] Hin. simpl.
    apply in_combine_r in Hin. apply in_map_iff in Hin.
    destruct Hin as [y [Hy Hin]]. inversion Hy; subst.
    rewrite Forall_forall in H. apply H. exact Hin.
  - intros props H.
    simpl. destruct (existsb (fun kv => stringify_throws (snd kv)) props) eqn:E;
      simpl; [|exact E].
    apply collect_accepted. intros [k [b x]] Hin. simpl.
    apply in_map_iff in Hin. destruct Hin as [[k' y] [Hy Hin]]. inversion Hy; subst.
    rewrite Forall_forall in H. exact (H _ Hin).
  - intros n m s props H.
    simpl. destruct (existsb (fun kv => stringify_throws (snd kv)) props) eqn:E;
      simpl; [reflexivity|exact E].
Qed.

(** X13. Whatever value it is given, [sanitizeResult] returns a value that
    [JSON.stringify] accepts (no BigInt is left anywhere in it), and applying
    it a second time changes nothing. *)
Theorem X13_sanitizeResult_is_accepted_and_idempotent (v : jsval) :
  stringify_throws (sanitizeResult v) = false
  /\ sanitizeResult (sanitizeResult v) = sanitizeResult v.
Proof.
  pose proof (sanitizeResult_accepted v) as H.
  split; [exact H|].
  apply RegistryProps.sanitizeResult_accepted_is_identity. exact H.
Qed.

End ValidationExtras.

(** Witnesses of X8 to X12 on the sample schemas. *)
Lemma X8_witness :
  validateParameterConstraints (rt := sample_runtime) (JNum (Fin (inject_Z 130))) age_prop "age"
  = Ok (Invalid ("Parameter '" ++ "age" ++ "' must be at most "
                   ++ num_to_string (Runtime := sample_runtime) (Fin (inject_Z 120)))).
Proof.
  apply (proj2 (proj2 (X8_number_within_bounds (rt := sample_runtime) age_prop "age"
                         0 (inject_Z 120) (inject_Z 130)
                         (or_introl eq_refl) eq_refl eq_refl eq_refl)));
    unfold Qle, Qlt; simpl; lia.
Defined.

Lemma X9_witness :
  validateParameterConstraints (rt := sample_runtime) (JStr "abc") code_prop "code" = Ok Valid.
Proof.
  apply (proj1 (X9_string_length_within_bounds (rt := sample_runtime) code_prop "code"
                  2 5 "abc" eq_refl eq_refl eq_refl eq_refl eq_refl)); simpl; lia.
Defined.

Lemma X10_witness :
  validateParameterConstraints (rt := sample_runtime) (JArr []) tags_prop "tags"
  = Ok (Invalid ("Parameter '" ++ "tags" ++ "' must have at least "
                   ++ num_to_string (Runtime := sample_runtime) (num_of_nat 1) ++ " items")).
Proof.
  apply (proj1 (proj2 (X10_array_items_within_bounds (rt := sample_runtime) tags_prop "tags"
                         1 3 [] eq_refl eq_refl eq_refl eq_refl))); simpl; lia.
Defined.

Lemma X11_witness :
  validateArguments (rt := sample_runtime)
    (JObj [("age", JNum (Fin (inject_Z 30))); ("nick", JStr "al")]) strict_parameters
  = Ok (Invalid ("Unexpected parameters: " ++ "nick")).
Proof.
  refine (proj2 (proj1 (X11_undeclared_arguments (rt := sample_runtime) strict_parameters
                          [("age", age_prop)]
                          [("age", JNum (Fin (inject_Z 30))); ("nick", JStr "al")]
                          eq_refl _ _) eq_refl) _).
  - intros required H k Hk. inversion H; subst required.
    destruct Hk as [<-|[]]. left. reflexivity.
  - intros k v [H|[H|[]]]; inversion H; reflexivity.
  - discriminate.
Defined.

Lemma X12_witness :
  executeFunction (rt := sample_runtime) sample_registry "greet"
    (JObj [("name", JNum (Fin 1))]) busy_world
  = (Ret (validation_failure (rt := sample_runtime)
            ("Invalid type for parameter '" ++ "name" ++ "': expected " ++ "string"
               ++ ", got " ++ "number") busy_world), tick busy_world).
Proof.
  refine (proj1 (X12_wrong_type_is_refused (rt := sample_runtime) sample_registry "greet"
                   (snd (entry greet_schema (returns (JStr "Hello, Alice!"))))
                   (mkParameters (Some "object") (Some [("name", text_prop)])
                      (Some ["name"]) None)
                   [("name", text_prop)] [] [] "name" (JNum (Fin 1)) text_prop "string"
                   busy_world eq_refl eq_refl eq_refl _ _ eq_refl eq_refl _ eq_refl)).
  - intros required H r Hr. inversion H; subst required. exact Hr.
  - intros k' v' [].
  - discriminate.
Defined.

End RegistryExtras.

(* ===================================================================== *)
(** ** Further properties of the completion client                        *)
(* ===================================================================== *)

Module ClientExtras.
Import JS.
Import OpenAIClient.
Import OpenAIClientSetup.
Import Samples.
Import ClientNotions.
Import ExtraNotions.
Local Open Scope string_scope.

(** X14. A request that cannot be made is refused before the endpoint is
    contacted: with a client that is not initialised, with no message, or
    with a message whose role or content is empty, [createChatCompletion]
    throws and the world is as before (no request, no sleep). *)
Theorem X14_refused_before_contact (c : Client) (messages : list Message) (w : World) :
  (client c = false ->
     createChatCompletion c messages w
     = (Throw (new_Error "OpenAI client is not initialized. Call initialize() first."), w))
  /\ (client c = true -> messages = [] ->
        createChatCompletion c messages w
        = (Throw (new_Error "Messages must be a non-empty array"), w))
  /\ (client c = true ->
      (exists m, In m messages /\ (role m = "" \/ content m = "")) ->
        createChatCompletion c messages w
        = (Throw (new_Error "Each message must have role and content properties"), w)).
Proof.
  unfold createChatCompletion. split; [|split].
  - intros ->. reflexivity.
  - intros -> ->. reflexivity.
  - intros -> [m [Hin Hblank]]. simpl.
    assert (Hex : existsb lacks_role_or_content messages = true).
    { apply existsb_exists. exists m. split; [exact Hin|].
      unfold lacks_role_or_content. destruct Hblank as [->| ->]; simpl;
        [reflexivity | apply orb_true_r]. }
    destruct messages as [|m0 ms]; [discriminate Hex|]. rewrite Hex. reflexivity.
Qed.

Lemma X14_witness :
  createChatCompletion ready_client
    [mkMessage "user" "hi" None None None; mkMessage "assistant" "" None None None]
    busy_world
  = (Throw (new_Error "Each message must have role and content properties"), busy_world).
Proof.
  apply (proj2 (proj2 (X14_refused_before_contact ready_client
                         [mkMessage "user" "hi" None None None;
                          mkMessage "assistant" "" None None None] busy_world)));
    [reflexivity|].
  eexists. split; [right; left; reflexivity | right; reflexivity].
Defined.

Lemma createChatCompletion_enters_loop c messages w :
  client c = true -> messages <> [] ->
  existsb lacks_role_or_content messages = false ->
  createChatCompletion c messages w
  = retry_loop (completions_create messages) 3 4 0 None w.
Proof.
  intros Hready Hne Hok. unfold createChatCompletion. rewrite Hready. simpl.
  destruct messages as [|m rest]; [contradiction|]. rewrite Hok. reflexivity.
Qed.

(** The attempt at which a call stops is the first whose outcome is not a
    retryable failure. *)
Lemma stop_index messages w k :
  k <= 3 ->
  (forall i, i < k -> exists e, api w (api_calls w + i) = ApiFail e /\ retryable e) ->
  (forall e, api w (api_calls w + k) = ApiFail e -> terminal e \/ k = 3) ->
  exists res w',
    retry_loop (completions_create messages) 3 4 0 None w = (res, w')
    /\ match api w (api_calls w + k) with
       | ApiOk r => res = Ret r
       | ApiFail e => res = Throw (_handleApiError e)
       end
    /\ api_calls w' = api_calls w + k + 1
    /\ random_reads w' = random_reads w + k
    /\ trace w'
       = (trace w ++ schedule messages w 0 k
            ++ [EvApiCall (map (fun m => (role m, content m)) messages)])%list.
Proof.
  intros Hk Hpre Hstop.
  destruct (ClientProps.retry_loop_runs messages 3 4 0 None w eq_refl ltac:(lia))
    as [k' [res [w' [Hrun [Hk' [Hpre' [Hres [Hcalls [Hreads [Htrace _]]]]]]]]]].
  assert (Heq : k' = k).
  { destruct (Nat.lt_trichotomy k' k) as [Hlt|[Heq|Hgt]]; [|exact Heq|].
    - destruct (Hpre k' Hlt) as [e [He Hr]]. rewrite He in Hres.
      destruct Hres as [_ [Ht|Hs]]; [contradiction | lia].
    - destruct (Hpre' k Hgt) as [e [He Hr]].
      destruct (Hstop e He) as [Ht|Hs]; [contradiction | lia]. }
  subst k'. exists res, w'. split; [exact Hrun|]. split.
  - destruct (api w (api_calls w + k)); [exact Hres | exact (proj1 Hres)].
  - auto.
Qed.


(** X16. A failure with status 401, 403, 400 or 404 stops the retries at
    whatever attempt it comes: after [k <= 3] retryable failures it propagates
    classified, with [k + 1] requests made and no sleep after it. *)
Theorem X16_terminal_failure_stops_retries (c : Client) (messages : list Message)
  (w : World) (k : nat) (e : JsError) :
  client c = true -> messages <> [] ->
  existsb lacks_role_or_content messages = false ->
  k <= 3 ->
  (forall i, i < k -> exists e', api w (api_calls w + i) = ApiFail e' /\ retryable e') ->
  api w (api_calls w + k) = ApiFail e ->
  terminal e ->
  exists w',
    createChatCompletion c messages w = (Throw (_handleApiError e), w')
    /\ api_calls w' = api_calls w + k + 1
    /\ random_reads w' = random_reads w + k
    /\ last (trace w') (EvSleep 0)
       = EvApiCall (map (fun m => (role m, content m)) messages).
Proof.
  intros Hready Hne Hok Hk Hpre Hout Hterm.
  rewrite (createChatCompletion_enters_loop c messages w Hready Hne Hok).
  destruct (stop_index messages w k Hk Hpre)
    as [res [w' [Hrun [Hres [Hcalls [Hreads Htrace]]]]]].
  { intros e' He'. rewrite Hout in He'. inversion He'; subst. left. exact Hterm. }
  rewrite Hout in Hres. subst res. exists w'. repeat split; auto.
  rewrite Htrace, app_assoc. apply last_last.
Qed.


Lemma X16_witness :
  exists w',
    createChatCompletion ready_client hello late_refusal_world
      = (Throw (_handleApiError unauthorized), w')
    /\ api_calls w' = 2.
Proof.
  destruct (X16_terminal_failure_stops_retries ready_client hello late_refusal_world 1
              unauthorized eq_refl ltac:(discriminate) eq_refl ltac:(lia))
    as [w' [H1 [H2 _]]].
  - intros i Hi. exists rate_limit. split; [|exact ClientProps.rate_limit_retryable].
    destruct i as [|i]; [reflexivity | lia].
  - reflexivity.
  - left. reflexivity.
  - exists w'. split; [exact H1 | exact H2].
Defined.

(** *** Configuration and initialisation *)

Lemma not_blank_passes (s : string) :
  String.length (ChatManager.trim s) <> 0 ->
  Nat.eqb (String.length (ChatManager.trim s)) 0 = false.
Proof. intros H. apply Nat.eqb_neq. exact H. Qed.

Lemma updateConfig_runs newConfig c :
  updateConfig newConfig c
  = (match _validateConfig (merge (config c) newConfig) with
     | Ok _ => Ret tt
     | Raise e => Throw e
     end, mkClient (client c) (merge (config c) newConfig)).
Proof.
  unfold updateConfig, bind, modify, get, pure. simpl.
  destruct (_validateConfig (merge (config c) newConfig)) as [[]|e]; reflexivity.
Qed.

(** X17. [updateConfig] stores the merged configuration before it validates
    it: whatever the outcome, the configuration afterwards is the merged one,
    so a rejected value stays in place. With a model that is not blank and
    finite numbers, the update is accepted exactly when the temperature lies
    in [[0, 2]] and the token limit in [[1, 4096]]; a temperature that is NaN
    is accepted. *)
Theorem X17_updateConfig (newConfig : ConfigPatch) (c : Client) :
  config (snd (updateConfig newConfig c)) = merge (config c) newConfig
  /\ client (snd (updateConfig newConfig c)) = client c
  /\ (String.length (ChatManager.trim (model (merge (config c) newConfig))) <> 0 ->
      (forall t n,
         temperature (merge (config c) newConfig) = Fin t ->
         maxTokens (merge (config c) newConfig) = Fin n ->
         (fst (updateConfig newConfig c) = Ret tt
          <-> (0 <= t /\ t <= inject_Z 2 /\ 1 <= n /\ n <= inject_Z 4096)%Q))
      /\ (forall n,
            temperature (merge (config c) newConfig) = NaN ->
            maxTokens (merge (config c) newConfig) = Fin n ->
            (1 <= n)%Q -> (n <= inject_Z 4096)%Q ->
            fst (updateConfig newConfig c) = Ret tt)).
Proof.
  rewrite updateConfig_runs. split; [reflexivity|]. split; [reflexivity|].
  intros Hmodel. apply not_blank_passes in Hmodel.
  unfold _validateConfig. cbn [fst].
  rewrite Hmodel. split.
  - intros t n -> ->. unfold num_gt. simpl.
    destruct (Qle_bool 0 t) eqn:E1; simpl.
    2:{ split; [discriminate|]. intros [H _]. apply Qle_bool_iff in H. congruence. }
    destruct (Qle_bool t (inject_Z 2)) eqn:E2; simpl.
    2:{ split; [discriminate|]. intros [_ [H _]]. apply Qle_bool_iff in H. congruence. }
    destruct (Qle_bool 1 n) eqn:E3; simpl.
    2:{ split; [discriminate|]. intros [_ [_ [H _]]]. apply Qle_bool_iff in H. congruence. }
    destruct (Qle_bool n (inject_Z 4096)) eqn:E4; simpl.
    2:{ split; [discriminate|]. intros [_ [_ [_ H]]]. apply Qle_bool_iff in H. congruence. }
    split; [|reflexivity]. intros _.
    repeat split; apply Qle_bool_iff; assumption.
  - intros n -> -> H1 H2. unfold num_gt. simpl.
    apply Qle_bool_iff in H1. apply Qle_bool_iff in H2. rewrite H1, H2. reflexivity.
Qed.

Lemma X17_witness :
  fst (updateConfig (mkPatch None (Some (Fin (inject_Z 3))) None) ready_client) <> Ret tt
  /\ temperature (config (snd (updateConfig (mkPatch None (Some (Fin (inject_Z 3))) None)
                                 ready_client))) = Fin (inject_Z 3).
Proof.
  destruct (X17_updateConfig (mkPatch None (Some (Fin (inject_Z 3))) None) ready_client)
    as [Hconfig [_ Hvalid]].
  split.
  - intros Hret.
    destruct (Hvalid ltac:(simpl; discriminate)) as [Hiff _].
    destruct (proj1 (Hiff (inject_Z 3) (inject_Z 1000) eq_refl eq_refl) Hret)
      as [_ [Hle _]].
    unfold Qle in Hle. simpl in Hle. lia.
  - rewrite Hconfig. reflexivity.
Defined.

(** X18. Once the key has the expected form and the merged configuration is
    valid, the outcome of [initialize] is decided by the request that tests
    the key: if it succeeds the client is ready with the merged
    configuration; if it fails the client is not ready, and the error thrown
    always reads "OpenAI client initialization failed: API key validation
    failed: " followed by the message of the failure, whatever its status or
    code. *)
Theorem X18_initialize_outcome (key : string) (options : ConfigPatch)
  (listing : option JsError) (c : Client) :
  String.length (ChatManager.trim key) <> 0 ->
  String.prefix "sk-" key = true ->
  _validateConfig (merge (config c) options) = Ok tt ->
  initialize (JStr key) options listing c
  = match listing with
    | None => (Ret tt, mkClient true (merge (config c) options))
    | Some error =>
        (Throw (new_Error ("OpenAI client initialization failed: "
                             ++ "API key validation failed: " ++ err_message error)),
         mkClient false (merge (config c) options))
    end.
Proof.
  intros Hkey Hprefix Hconfig. unfold initialize, key_missing.
  assert (Htruthy : truthy (JStr key) = true).
  { simpl. destruct key; [simpl in Hkey; contradiction | reflexivity]. }
  rewrite Htruthy, (not_blank_passes key Hkey), Hprefix. simpl.
  unfold bind, modify, get, pure, try_catch. simpl. rewrite Hconfig.
  destruct listing as [error|]; reflexivity.
Qed.

Lemma X18_witness :
  initialize (JStr "sk-test") (mkPatch None None None) (Some unauthorized) constructor
  = (Throw (new_Error ("OpenAI client initialization failed: "
                         ++ "API key validation failed: " ++ "Bad key")),
     mkClient false (config constructor)).
Proof.
  apply (X18_initialize_outcome "sk-test" (mkPatch None None None) (Some unauthorized)
           constructor); [simpl; discriminate | reflexivity | reflexivity].
Defined.

(** X19. A key that is missing, not a string, blank, or that does not start
    with "sk-" is refused before anything else happens: [initialize] throws
    and the client and its configuration are untouched, whatever options were
    given. *)
Theorem X19_key_refused_first (apiKey : jsval) (options : ConfigPatch)
  (listing : option JsError) (c : Client) :
  (forall key, apiKey = JStr key ->
     String.length (ChatManager.trim key) = 0 \/ String.prefix "sk-" key = false) ->
  exists e,
    initialize apiKey options listing c = (Throw e, c)
    /\ ((forall key, apiKey = JStr key -> String.length (ChatManager.trim key) = 0) ->
        err_message e = "OpenAI API key is required and must be a non-empty string").
Proof.
  intros Hbad. unfold initialize, key_missing.
  destruct apiKey as [| |b|n|z|key|d|f|items|props|n m s props];
    try (eexists; split; [simpl; try rewrite orb_true_r; reflexivity | reflexivity]).
  destruct (Nat.eqb (String.length (ChatManager.trim key)) 0) eqn:E.
  - rewrite orb_true_r. eexists. split; reflexivity.
  - rewrite orb_false_r.
    destruct (truthy (JStr key)); simpl; [|eexists; split; reflexivity].
    destruct (Hbad key eq_refl) as [H|H].
    + apply Nat.eqb_neq in E. contradiction.
    + rewrite H. simpl. eexists. split; [reflexivity|].
      intros Hall. apply Nat.eqb_neq in E. specialize (Hall key eq_refl). contradiction.
Qed.

Lemma X19_witness :
  exists e, initialize (JStr "key-123") (mkPatch (Some "gpt-3.5") None None) None constructor
            = (Throw e, constructor).
Proof.
  destruct (X19_key_refused_first (JStr "key-123") (mkPatch (Some "gpt-3.5") None None)
              None constructor) as [e [He _]].
  - intros key H. inversion H; subst key. right. reflexivity.
  - exists e. exact He.
Defined.

End ClientExtras.

(* ===================================================================== *)
(** ** Further properties of the conversation orchestrator                *)
(* ===================================================================== *)

Module ChatExtras.
Import JS.
Import OpenAIClient.
Import ChatManager.
Import Samples.
Import RegistryNotions.
Import ClientNotions.
Import ChatNotions.
Import ExtraNotions.
Local Open Scope string_scope.

Section TranscriptExtras.
Context {rt : Runtime}.

(** X20. Up to 20 entries [trimHistory] drops nothing; beyond, it keeps the
    first entry and the 19 most recent ones in their order, dropping the
    entries in between; trimming twice is trimming once. *)
Theorem X20_trimHistory_keeps_most_recent (h : list Message) :
  (List.length h <= 20 -> trimHistory h = h)
  /\ (20 < List.length h ->
        hd_error (trimHistory h) = hd_error h
        /\ tl (trimHistory h) = skipn (List.length h - 19) h)
  /\ trimHistory (trimHistory h) = trimHistory h.
Proof.
  split; [apply ChatProps.trimHistory_short|]. split.
  - intros Hlong. split; [apply ChatProps.trimHistory_hd|].
    destruct (ChatProps.trimHistory_long h Hlong) as [first [rest [_ Ht]]].
    rewrite Ht. reflexivity.
  - apply ChatProps.trimHistory_short. apply ChatProps.trimHistory_length.
Qed.

Lemma estimate_from (messages : list Message) :
  forall start,
  fold_left
    (fun totalTokens message =>
       let contentTokens := ceil_div4 (String.length (content message)) in
       let total := totalTokens + (contentTokens + 10) in
       match function_call message with
       | Some fc =>
           total + ceil_div4 (JSON_function_call_length (fc_name fc) (fc_arguments fc))
       | None => total
       end)
    messages start
  = start + estimateTokenCount messages.
Proof.
  unfold estimateTokenCount.
  induction messages as [|m rest IH]; intros start; simpl; [lia|].
  rewrite IH. rewrite (IH (match function_call m with Some _ => _ | None => _ end)).
  destruct (function_call m); lia.
Qed.

Lemma estimate_cons m rest :
  estimateTokenCount (m :: rest) = estimateTokenCount [m] + estimateTokenCount rest.
Proof.
  unfold estimateTokenCount at 1 2. simpl. rewrite estimate_from.
  destruct (function_call m); reflexivity.
Qed.

Lemma estimate_app a b :
  estimateTokenCount (a ++ b) = estimateTokenCount a + estimateTokenCount b.
Proof.
  induction a as [|m a IH]; [reflexivity|].
  simpl app. rewrite (estimate_cons m (a ++ b)), (estimate_cons m a), IH. lia.
Qed.

(** X21. The token estimate is a sum over the messages: the estimate of two
    transcripts put together is the sum of their estimates, whatever the
    order, and every message counts for at least 10. *)
Theorem X21_estimate_is_additive (a b : list Message) :
  estimateTokenCount (a ++ b) = estimateTokenCount a + estimateTokenCount b
  /\ estimateTokenCount (b ++ a) = estimateTokenCount (a ++ b)
  /\ 10 * List.length a <= estimateTokenCount a.
Proof.
  split; [apply estimate_app|]. split; [rewrite !estimate_app; lia|].
  induction a as [|m a IH]; [simpl; lia|].
  rewrite estimate_cons. simpl List.length.
  assert (10 <= estimateTokenCount [m]).
  { unfold estimateTokenCount. simpl. destruct (function_call m); lia. }
  lia.
Qed.

(** The loop of [trimToTokenLimit] keeps the longest run of most recent
    messages that fits in what is left of the budget. *)
Lemma take_recent_keeps_suffix maxTokens :
  forall others currentTokens acc,
  exists dropped kept,
    others = (dropped ++ kept)%list
    /\ take_recent (rev others) maxTokens currentTokens acc = (kept ++ acc)%list
    /\ (currentTokens <= maxTokens -> currentTokens + estimateTokenCount kept <= maxTokens)
    /\ (forall earlier d, dropped = (earlier ++ [d])%list ->
          maxTokens < currentTokens + estimateTokenCount kept + estimateTokenCount [d]).
Proof.
  induction others as [|x init IH] using rev_ind; intros currentTokens acc.
  - exists [], []. simpl.
    split; [reflexivity|]. split; [reflexivity|]. split.
    + intros H. unfold estimateTokenCount. simpl. lia.
    + intros earlier d H. destruct earlier; discriminate H.
  - rewrite rev_app_distr. simpl.
    destruct (Nat.leb_spec (currentTokens + estimateTokenCount [x]) maxTokens) as [Hfit|Hno].
    + destruct (IH (currentTokens + estimateTokenCount [x]) (x :: acc))
        as [dropped [kept [Hsplit [Hrun [Hbudget Hmax]]]]].
      exists dropped, (kept ++ [x])%list. split; [|split; [|split]].
      * rewrite Hsplit, app_assoc. reflexivity.
      * rewrite Hrun, <- app_assoc. reflexivity.
      * intros _. rewrite estimate_app. specialize (Hbudget Hfit). lia.
      * intros earlier d Hd. rewrite estimate_app. specialize (Hmax earlier d Hd). lia.
    + exists (init ++ [x])%list, []. rewrite app_nil_r. simpl.
      split; [reflexivity|]. split; [reflexivity|]. split.
      * intros H. unfold estimateTokenCount. simpl. lia.
      * intros earlier d Hd. apply app_inj_tail in Hd. destruct Hd as [_ <-].
        unfold estimateTokenCount at 1. simpl. lia.
Qed.

Lemma find_after_others kept sys :
  (forall m, In m kept -> is_system m = false) -> is_system sys = true ->
  find is_system (kept ++ [sys]) = Some sys
  /\ remove_first is_system (kept ++ [sys]) = kept.
Proof.
  intros Hkept Hsys. induction kept as [|m kept IH]; cbn [app find remove_first].
  - rewrite Hsys. split; reflexivity.
  - rewrite (Hkept m (or_introl eq_refl)).
    destruct IH as [IH1 IH2]; [intros m' Hm'; apply Hkept; right; exact Hm'|].
    rewrite IH1, IH2. split; reflexivity.
Qed.

Lemma system_first_moves kept sys :
  (forall m, In m kept -> is_system m = false) -> is_system sys = true ->
  system_first (kept ++ [sys]) = sys :: kept.
Proof.
  intros Hkept Hsys. destruct kept as [|m kept].
  - unfold system_first. cbn [app]. rewrite Hsys. reflexivity.
  - unfold system_first. cbn [app]. rewrite (Hkept m (or_introl eq_refl)).
    destruct (find_after_others (m :: kept) sys Hkept Hsys) as [H1 H2].
    cbn [app] in H1, H2. rewrite H1, H2. reflexivity.
Qed.

(** X22. [trimToTokenLimit] on a transcript that holds a system message
    returns the first system message followed by the longest run of most
    recent other messages that fits: the kept messages are a suffix of the
    other messages, in their order; when the system message alone fits the
    budget, the whole result fits it; and the most recent message dropped
    would not have fitted. Further system messages are dropped. Without any
    system message the result is such a suffix of the transcript. *)
Theorem X22_trimToTokenLimit (messages : list Message) (maxTokens : nat) :
  (forall sys, find is_system messages = Some sys ->
     exists dropped kept,
       non_system messages = (dropped ++ kept)%list
       /\ trimToTokenLimit messages maxTokens = sys :: kept
       /\ (estimateTokenCount [sys] <= maxTokens ->
             estimateTokenCount (sys :: kept) <= maxTokens)
       /\ (forall earlier d, dropped = (earlier ++ [d])%list ->
             maxTokens < estimateTokenCount (sys :: kept) + estimateTokenCount [d]))
  /\ (find is_system messages = None ->
        exists dropped kept,
          messages = (dropped ++ kept)%list
          /\ trimToTokenLimit messages maxTokens = kept
          /\ estimateTokenCount kept <= maxTokens
          /\ (forall earlier d, dropped = (earlier ++ [d])%list ->
                maxTokens < estimateTokenCount kept + estimateTokenCount [d])).
Proof.
  split.
  - intros sys Hfind.
    destruct (take_recent_keeps_suffix maxTokens (non_system messages)
                (estimateTokenCount [sys]) [sys])
      as [dropped [kept [Hsplit [Hrun [Hbudget Hmax]]]]].
    exists dropped, kept. split; [exact Hsplit|].
    assert (Hsys : is_system sys = true) by (apply (find_some _ _ Hfind)).
    assert (Hkept : forall m, In m kept -> is_system m = false).
    { intros m Hm.
      assert (Hin : In m (non_system messages)).
      { rewrite Hsplit. apply in_or_app. right. exact Hm. }
      unfold non_system in Hin. apply filter_In in Hin.
      apply negb_true_iff. exact (proj2 Hin). }
    split; [|split].
    + unfold trimToTokenLimit. destruct messages as [|m0 ms]; [discriminate Hfind|].
      rewrite Hfind. fold (non_system (m0 :: ms)). rewrite Hrun.
      apply system_first_moves; assumption.
    + intros Hfit. rewrite estimate_cons. apply Hbudget. exact Hfit.
    + intros earlier d Hd. rewrite (estimate_cons sys kept). apply (Hmax earlier d Hd).
  - intros Hnone.
    assert (Hall : non_system messages = messages).
    { unfold non_system. apply forallb_filter_id. apply forallb_forall.
      intros m Hm. apply negb_true_iff. exact (find_none _ _ Hnone m Hm). }
    destruct (take_recent_keeps_suffix maxTokens (non_system messages) 0 [])
      as [dropped [kept [Hsplit [Hrun [Hbudget Hmax]]]]].
    rewrite Hall in Hsplit. exists dropped, kept. split; [exact Hsplit|].
    split; [|split].
    + unfold trimToTokenLimit. destruct messages as [|m0 ms].
      * destruct dropped; destruct kept; try discriminate Hsplit. reflexivity.
      * rewrite Hnone. fold (non_system (m0 :: ms)). rewrite Hrun. apply app_nil_r.
    + apply (Hbudget (Nat.le_0_l _)).
    + intros earlier d Hd. apply (Hmax earlier d Hd).
Qed.

(** X23. After any sequence of [addToHistory] calls on a conversation that
    was started with its system message alone, [clearHistory] brings the
    transcript back to that system message alone. *)
Theorem X23_clearHistory_returns_to_start (cm : ChatManager) (sys : Message)
  (calls : list (string * jsval * Metadata)) (w : World) :
  messageHistory cm = [sys] ->
  role sys = "system" ->
  messageHistory (clearHistory (fst (run_calls calls (cm, w)))) = [sys].
Proof.
  intros Hseed Hrole.
  destruct (ChatProps.run_calls_invariant sys calls (cm, w)) as [Hhd _].
  - simpl. rewrite Hseed. reflexivity.
  - simpl. rewrite Hseed. simpl. lia.
  - unfold clearHistory. simpl.
    destruct (messageHistory (fst (run_calls calls (cm, w)))) as [|m rest];
      [discriminate Hhd|].
    inversion Hhd; subst m. cbn [find]. unfold is_system. rewrite Hrole. reflexivity.
Qed.





End TranscriptExtras.

Lemma X20_witness : trimHistory short_exchange = short_exchange.
Proof.
  apply (proj1 (X20_trimHistory_keeps_most_recent short_exchange)). simpl. lia.
Defined.

Lemma X22_witness :
  exists kept,
    trimToTokenLimit (rt := sample_runtime) short_exchange 40
      = mkMessage "system" "Be brief." None None None :: kept
    /\ estimateTokenCount (rt := sample_runtime)
         (mkMessage "system" "Be brief." None None None :: kept) <= 40.
Proof.
  destruct (proj1 (X22_trimToTokenLimit (rt := sample_runtime) short_exchange 40)
              (mkMessage "system" "Be brief." None None None) eq_refl)
    as [dropped [kept [_ [Hrun [Hfit _]]]]].
  exists kept. split; [exact Hrun|]. apply Hfit.
  unfold estimateTokenCount. simpl. lia.
Defined.

Lemma X23_witness :
  messageHistory
    (clearHistory
       (fst (run_calls (rt := sample_runtime)
               [("user", JStr "hi", no_meta); ("assistant", JStr "hello", no_meta)]
               (sample_manager, busy_world))))
  = [systemMessage sample_manager].
Proof.
  apply (X23_clearHistory_returns_to_start (rt := sample_runtime) sample_manager
           (systemMessage sample_manager)); reflexivity.
Defined.


Section TurnExtras.
Context {rt : Runtime}.

Lemma getFormattedHistory_accepted (cm : ChatManager) :
  well_formed (messageHistory cm) ->
  existsb lacks_role_or_content (getFormattedHistory cm) = false.
Proof.
  unfold getFormattedHistory. generalize (messageHistory cm) as h.
  induction h as [|m h IH]; intros Hwf; [reflexivity|].
  cbn [map existsb]. rewrite IH.
  - unfold lacks_role_or_content. cbn [role content].
    destruct (Hwf m (or_introl eq_refl)) as [Hr Hc].
    apply String.eqb_neq in Hr, Hc. rewrite Hr, Hc. reflexivity.
  - intros m' Hm'. apply Hwf. right. exact Hm'.
Qed.

Lemma well_formed_push (h : list Message) (m : Message) :
  well_formed h -> role m <> "" -> content m <> "" ->
  well_formed (trimHistory (h ++ [m])).
Proof.
  intros Hwf Hr Hc m' Hin. apply ChatProps.trimHistory_In in Hin.
  apply in_app_or in Hin. destruct Hin as [Hin|[<-|[]]]; [apply Hwf; exact Hin|].
  split; assumption.
Qed.

Lemma trim_not_blank (s : string) : trim s <> "" -> invalid_input (JStr s) = false.
Proof.
  intros H. unfold invalid_input. cbn [truthy].
  assert (Hs : s <> "") by (intros ->; apply H; reflexivity).
  apply String.eqb_neq in Hs. rewrite Hs. cbn [negb orb].
  destruct (trim s) as [|c t]; [contradiction|reflexivity].
Qed.

(** With an initialised client and a text that is not blank, the turn
    appends the user entry and requests a completion for the formatted
    transcript. *)
Lemma process_turn_requests (rounds : nat) (s : string) (opts : ProcessOptions)
  (cm : ChatManager) (w : World) :
  isReady (openaiClient cm) = true ->
  trim s <> "" ->
  includeHistory opts = true ->
  ChatManager.maxTokens opts = None ->
  let cm1 := set_history (trimHistory (messageHistory cm
                                         ++ [entry_at w "user" (trim s) no_meta])) cm in
  process_turn rounds (JStr s) opts (cm, w)
  = bind (lift_world (createChatCompletion (openaiClient cm) (getFormattedHistory cm1)))
         (processOpenAIResponse rounds) (cm1, tick w).
Proof.
  intros Hready Hs Hinc Hmax cm1. unfold process_turn.
  rewrite (trim_not_blank s Hs).
  unfold bind at 1. unfold the_object at 1. cbn [fst].
  rewrite Hready. cbn [negb].
  unfold bind at 1.
  rewrite (ChatProps.addToHistory_text "user" (input_text (JStr s)) no_meta cm w eq_refl).
  unfold bind at 1. unfold the_object at 1. cbn [fst].
  rewrite Hinc, Hmax. reflexivity.
Qed.

Lemma pushed_not_empty (h : list Message) (m : Message) (cm : ChatManager) :
  getFormattedHistory (set_history (trimHistory (h ++ [m])) cm) <> [].
Proof.
  unfold getFormattedHistory. cbn [messageHistory set_history].
  destruct (ChatProps.trimHistory_keeps_recent h [m]) as [pre' ->]; [simpl; lia|].
  rewrite map_app. intros H. apply app_eq_nil in H. destruct H as [_ H]. discriminate H.
Qed.

(** The request of a turn: what [createChatCompletion] yields for the
    transcript after the user entry, when the endpoint fails [k] times with
    retryable errors before an outcome that ends the call. *)
Lemma turn_request (cm : ChatManager) (w : World) (u : Message) (k : nat) :
  isReady (openaiClient cm) = true ->
  well_formed (messageHistory cm) ->
  role u <> "" -> content u <> "" ->
  k <= 3 ->
  (forall i, i < k -> exists e, api w (api_calls w + i) = ApiFail e /\ retryable e) ->
  (forall e, api w (api_calls w + k) = ApiFail e -> terminal e \/ k = 3) ->
  let cm1 := set_history (trimHistory (messageHistory cm ++ [u])) cm in
  exists res w',
    createChatCompletion (openaiClient cm) (getFormattedHistory cm1) (tick w) = (res, w')
    /\ match api w (api_calls w + k) with
       | ApiOk r => res = Ret r
       | ApiFail e => res = Throw (_handleApiError e)
       end
    /\ api_calls w' = api_calls w + k + 1.
Proof.
  intros Hready Hwf Hr Hc Hk Hpre Hstop cm1.
  rewrite (ClientExtras.createChatCompletion_enters_loop (openaiClient cm)
             (getFormattedHistory cm1) (tick w) Hready).
  - destruct (ClientExtras.stop_index (getFormattedHistory cm1) (tick w) k Hk Hpre Hstop)
      as [res [w' [Hrun [Hres [Hcalls _]]]]].
    exists res, w'. split; [exact Hrun|]. split; [exact Hres | exact Hcalls].
  - apply pushed_not_empty.
  - apply getFormattedHistory_accepted. apply well_formed_push; assumption.
Qed.

Lemma text_response (rounds : nat) (r : Response) (text : string) (cm : ChatManager)
  (w : World) :
  r_function_call r = None -> r_content r = JStr text ->
  processOpenAIResponse rounds r (cm, w)
  = (Ret (mkEnvelope true text None false (Some (r_usage r)) (Some (r_model r))
            (Some (r_finish_reason r))),
     (set_history (trimHistory (messageHistory cm
                                  ++ [entry_at w "assistant" text no_meta])) cm,
      tick w)).
Proof.
  intros Hfc Hcontent.
  destruct rounds; cbn [processOpenAIResponse]; rewrite Hfc, Hcontent;
    unfold try_catch, bind;
    rewrite (ChatProps.addToHistory_text "assistant" text no_meta cm w eq_refl);
    reflexivity.
Qed.

(** X25. A turn answered with a text. With an initialised client, a
    transcript whose entries all have a role and a content, an input that is
    not blank and the default options, when the endpoint fails [k <= 3] times
    with retryable errors and then answers with a text and no function call,
    [processMessage] returns the success envelope carrying that text, having
    appended the trimmed input as a user entry and the text as an assistant
    entry, after [k + 1] requests. *)
Theorem X25_text_answer_is_appended (rounds : nat) (cm : ChatManager) (w : World)
  (s text : string) (opts : ProcessOptions) (r : Response) (k : nat) :
  isReady (openaiClient cm) = true ->
  well_formed (messageHistory cm) ->
  trim s <> "" ->
  includeHistory opts = true ->
  ChatManager.maxTokens opts = None ->
  k <= 3 ->
  (forall i, i < k -> exists e, api w (api_calls w + i) = ApiFail e /\ retryable e) ->
  api w (api_calls w + k) = ApiOk r ->
  r_function_call r = None ->
  r_content r = JStr text ->
  exists env cm' w' u a,
    processMessage rounds (JStr s) (Some opts) (cm, w) = (Ret env, (cm', w'))
    /\ env_success env = true /\ env_message env = text /\ env_error env = None
    /\ role u = "user" /\ content u = trim s
    /\ role a = "assistant" /\ content a = text
    /\ messageHistory cm' = trimHistory (trimHistory (messageHistory cm ++ [u]) ++ [a])
    /\ api_calls w' = api_calls w + k + 1.
Proof.
  intros Hready Hwf Hs Hinc Hmax Hk Hpre Hout Hfc Hcontent.
  destruct (turn_request cm w (entry_at w "user" (trim s) no_meta) k Hready Hwf)
    as [res [w1 [Hreq [Hres Hcalls]]]];
    [discriminate | exact Hs | exact Hk | exact Hpre | | ].
  { intros e He. rewrite Hout in He. discriminate He. }
  rewrite Hout in Hres. subst res.
  eexists. eexists. eexists.
  exists (entry_at w "user" (trim s) no_meta), (entry_at w1 "assistant" text no_meta).
  split.
  - unfold processMessage. apply ChatProps.try_catch_ret.
    rewrite (process_turn_requests rounds s opts cm w Hready Hs Hinc Hmax).
    unfold bind at 1. unfold lift_world. cbn [fst snd]. rewrite Hreq.
    apply (text_response rounds r text _ _ Hfc Hcontent).
  - cbn [env_success env_message env_error role content entry_at messageHistory set_history
         api_calls tick].
    repeat split; try reflexivity. exact Hcalls.
Qed.

(** X26. A turn whose request fails. Under the same conditions on the
    client, the transcript and the input, when the endpoint fails [k <= 3]
    times with retryable errors and then with an error that ends the call (a
    terminal one, or the fourth in a row), [processMessage] does not throw:
    it returns a PROCESSING_ERROR envelope carrying the classified error,
    and the transcript keeps the user entry and gains an assistant entry
    with the text of the envelope. *)
Theorem X26_failed_request_is_recorded (rounds : nat) (cm : ChatManager) (w : World)
  (s : string) (opts : ProcessOptions) (e : JsError) (k : nat) :
  isReady (openaiClient cm) = true ->
  well_formed (messageHistory cm) ->
  trim s <> "" ->
  includeHistory opts = true ->
  ChatManager.maxTokens opts = None ->
  k <= 3 ->
  (forall i, i < k -> exists e', api w (api_calls w + i) = ApiFail e' /\ retryable e') ->
  api w (api_calls w + k) = ApiFail e ->
  terminal e \/ k = 3 ->
  exists env cm' w' u a,
    processMessage rounds (JStr s) (Some opts) (cm, w) = (Ret env, (cm', w'))
    /\ failure_envelope env "PROCESSING_ERROR"
    /\ env_message env = "I encountered an error: " ++ err_message (_handleApiError e)
    /\ role u = "user" /\ content u = trim s
    /\ role a = "assistant" /\ content a = env_message env
    /\ messageHistory cm' = trimHistory (trimHistory (messageHistory cm ++ [u]) ++ [a])
    /\ api_calls w' = api_calls w + k + 1.
Proof.
  intros Hready Hwf Hs Hinc Hmax Hk Hpre Hout Hend.
  destruct (turn_request cm w (entry_at w "user" (trim s) no_meta) k Hready Hwf)
    as [res [w1 [Hreq [Hres Hcalls]]]];
    [discriminate | exact Hs | exact Hk | exact Hpre | | ].
  { intros e' He'. rewrite Hout in He'. inversion He'; subst e'. exact Hend. }
  rewrite Hout in Hres. subst res.
  eexists. eexists. eexists.
  exists (entry_at w "user" (trim s) no_meta).
  eexists.
  split.
  - unfold processMessage.
    rewrite (ChatProps.try_catch_throw _ processing_failed (cm, w) (_handleApiError e)
               (set_history (trimHistory (messageHistory cm
                                            ++ [entry_at w "user" (trim s) no_meta])) cm, w1)).
    + unfold processing_failed. unfold bind at 1.
      rewrite ChatProps.lift_Date_iso. unfold bind at 1.
      rewrite ChatProps.addToHistory_text by reflexivity. reflexivity.
    + rewrite (process_turn_requests rounds s opts cm w Hready Hs Hinc Hmax).
      unfold bind at 1. unfold lift_world. cbn [fst snd]. rewrite Hreq. reflexivity.
  - cbn [env_success env_message env_error role content entry_at messageHistory set_history
         api_calls tick].
    split; [split; [reflexivity | eexists; split; reflexivity]|].
    repeat split; try reflexivity. exact Hcalls.
Qed.

(** X27. [processMessageBatch] answers every message, in order, and never
    throws. With an options object the array it returns holds, for each
    message in turn, the envelope [processMessage] returns for it in the
    state left by the message before it and the 100 ms pause that follows
    each: the [catch] block of the loop is never entered. With [null] for the
    options [processMessage] throws a TypeError for every message, and every
    element is the BATCH_PROCESSING_ERROR object built from that error and
    the message; neither the transcript nor the world changes. *)
Theorem X27_batch_answers_every_message (rounds : nat) (messages : list jsval)
  (opts : ProcessOptions) (cm : ChatManager) (w : World) :
  (exists responses s',
     processMessageBatch (S rounds) messages (Some opts) (cm, w) = (Ret responses, s')
     /\ answers_in_turn (S rounds) opts messages (cm, w) responses s'
     /\ List.length responses = List.length messages)
  /\ (exists e,
        (forall message, processMessage rounds message None (cm, w) = (Throw e, (cm, w)))
        /\ err_name e = "TypeError"
        /\ processMessageBatch rounds messages None (cm, w)
           = (Ret (map (fun message =>
                          BatchFailed ("Error processing message: " ++ err_message e)
                            (err_message e) message)
                       messages),
              (cm, w))).
Proof.
  split.
  - revert cm w. induction messages as [|message rest IH]; intros cm w.
    + exists [], (cm, w). split; [reflexivity|]. split; [constructor | reflexivity].
    + destruct (ChatProps.processMessage_returns rounds message opts cm w)
        as [env [cm1 [w1 Hrun]]].
      destruct (IH cm1 (paused w1)) as [responses [s' [Hrest [Hturn Hlen]]]].
      exists (Processed env :: responses), s'. split; [|split].
      * cbn [processMessageBatch]. unfold bind at 1.
        rewrite (ChatProps.try_catch_ret _ _ (cm, w) (Processed env) (cm1, paused w1)).
        -- unfold bind at 1. rewrite Hrest. reflexivity.
        -- unfold bind at 1. rewrite Hrun. reflexivity.
      * apply answers_next with (cm1 := cm1) (w1 := w1); assumption.
      * simpl. rewrite Hlen. reflexivity.
  - eexists. split; [intros message; reflexivity|]. split; [reflexivity|].
    induction messages as [|message rest IH]; [reflexivity|].
    cbn [processMessageBatch map]. unfold bind at 1.
    unfold try_catch at 1. unfold bind at 1. cbn [processMessage throw].
    unfold ret at 1. unfold bind at 1. rewrite IH. reflexivity.
Qed.

Lemma execute_one_returns (functionCall : FunctionCall) (cm : ChatManager) (w : World) :
  exists r w',
    execute_one functionCall (cm, w) = (Ret r, (cm, w'))
    /\ sr_functionName r = fc_name functionCall
    /\ api_calls w' = api_calls w
    /\ (validateFunctionCall cm functionCall <> CallValid ->
        w' = w /\ sr_success r = false).
Proof.
  unfold execute_one, try_catch. unfold bind at 1. unfold the_object at 1. cbn [fst].
  destruct (validateFunctionCall cm functionCall) as [|error] eqn:Hvalid.
  - assert (Hargs : exists args,
              (if String.eqb (fc_arguments functionCall) "" then Ok (JObj [])
               else match JSON_parse (fc_arguments functionCall) with
                    | inl v => Ok v
                    | inr message => Raise (mkError "SyntaxError" message None None)
                    end) = Ok args).
    { unfold validateFunctionCall in Hvalid.
      destruct (String.eqb (fc_name functionCall) ""); [discriminate Hvalid|].
      destruct (negb _); [discriminate Hvalid|].
      destruct (String.eqb (fc_arguments functionCall) ""); [eexists; reflexivity|].
      destruct (JSON_parse (fc_arguments functionCall)); [eexists; reflexivity|].
      discriminate Hvalid. }
    destruct Hargs as [args ->].
    destruct (ChatProps.executeFunctionSafely_returns (functionRegistry cm)
                (fc_name functionCall) args FunctionRegistry.no_options w)
      as [r [w' [Hrun Hcalls]]].
    eexists. exists w'. unfold bind, pure, lift_world. cbn [fst snd]. rewrite Hrun.
    split; [reflexivity|]. split; [reflexivity|]. split; [exact Hcalls|].
    intros H. contradiction H. reflexivity.
  - eexists. exists w. split; [reflexivity|]. split; [reflexivity|].
    split; [reflexivity|]. intros _. split; reflexivity.
Qed.

(** X28. [executeFunctionSequence] never throws and reports every call, in
    order: it returns one result per call, carrying the name of that call,
    and it leaves the conversation object as it was and makes no request to
    the endpoint. Calls that [validateFunctionCall] refuses are reported as
    failures without anything being executed: when all are refused, the
    world is unchanged. *)
Theorem X28_sequence_reports_every_call (functionCalls : list FunctionCall)
  (cm : ChatManager) (w : World) :
  exists results w',
    executeFunctionSequence functionCalls (cm, w) = (Ret results, (cm, w'))
    /\ map sr_functionName results = map fc_name functionCalls
    /\ api_calls w' = api_calls w
    /\ ((forall fc, In fc functionCalls -> validateFunctionCall cm fc <> CallValid) ->
        w' = w /\ forall r, In r results -> sr_success r = false).
Proof.
  revert w. induction functionCalls as [|functionCall rest IH]; intros w.
  - exists [], w. split; [reflexivity|]. split; [reflexivity|]. split; [reflexivity|].
    intros _. split; [reflexivity|]. intros r [].
  - destruct (execute_one_returns functionCall cm w) as [r [w1 [Hone [Hname [Hcalls Hrefused]]]]].
    destruct (IH w1) as [results [w' [Hrest [Hnames [Hcalls' Hall]]]]].
    exists (r :: results), w'. split; [|split; [|split]].
    + cbn [executeFunctionSequence]. unfold bind at 1. rewrite Hone.
      unfold bind at 1. rewrite Hrest. reflexivity.
    + simpl. rewrite Hname, Hnames. reflexivity.
    + rewrite Hcalls'. exact Hcalls.
    + intros Hnone.
      destruct (Hrefused (Hnone functionCall (or_introl eq_refl))) as [Hw Hfail].
      subst w1.
      destruct Hall as [Hw' Hfails]; [intros fc Hfc; apply Hnone; right; exact Hfc|].
      split; [exact Hw'|]. intros r' [<-|Hin]; [exact Hfail | apply Hfails; exact Hin].
Qed.

Lemma executeFunction_shape (functions : FunctionRegistry.Registry) (name : string)
  (args : jsval) (w : World) :
  exists res w',
    FunctionRegistry.executeFunction functions name args w = (res, w')
    /\ match res with
       | Ret r =>
           FunctionRegistry.success r = true
           \/ (FunctionRegistry.success r = false
               /\ exists e, FunctionRegistry.error r = Some e)
       | Throw _ => True
       | OutOfRounds => False
       end.
Proof.
  unfold FunctionRegistry.executeFunction.
  destruct (FunctionRegistry.Map_get name functions) as [fd|].
  2:{ eexists. eexists. split; [reflexivity|]. right. simpl. eauto. }
  unfold FunctionRegistry.try_catch_any, bind, pure.
  destruct (FunctionRegistry.s_parameters (FunctionRegistry.fd_schema fd)) as [p|]; simpl;
    [destruct (FunctionRegistry.validateArguments (FunctionRegistry.default_args args) p)
       as [[|msg]|e]; simpl|];
    try (eexists; eexists; split; [reflexivity|]; simpl; now eauto);
    (destruct (FunctionRegistry.fd_handler fd (FunctionRegistry.default_args args))
       as [e|ms [v|e|n]| |n]; simpl;
     try destruct (N.ltb ms FunctionRegistry.timeoutMs); simpl;
     eexists; eexists; (split; [reflexivity|]); simpl; eauto).
Qed.

Lemma executeFunctionSafely_shape (functions : FunctionRegistry.Registry) (name : string)
  (args : jsval) (options : FunctionRegistry.SafeOptions) (w : World) :
  FunctionRegistry.o_sanitizeResults options <> Some false ->
  exists r w',
    FunctionRegistry.executeFunctionSafely functions name args options w = (Ret r, w')
    /\ ((FunctionRegistry.success r = true
         /\ FunctionRegistry.stringify_throws (FunctionRegistry.result r) = false)
        \/ (FunctionRegistry.success r = false
            /\ exists e, FunctionRegistry.error r = Some e)).
Proof.
  intros Hsan.
  assert (Hon : FunctionRegistry.or_default (FunctionRegistry.o_sanitizeResults options) true
                = true).
  { destruct (FunctionRegistry.o_sanitizeResults options) as [[|]|];
      [reflexivity | contradiction Hsan; reflexivity | reflexivity]. }
  unfold FunctionRegistry.executeFunctionSafely. rewrite Hon.
  unfold bind at 1. unfold Date_now at 1. cbv beta iota. unfold try_catch.
  unfold bind at 1.
  match goal with
  | |- context [FunctionRegistry.executeFunction functions name args ?w0] =>
      destruct (executeFunction_shape functions name args w0) as [res [w1 [Hrun Hshape]]]
  end.
  rewrite Hrun. destruct res as [r|e|]; [| |contradiction].
  - unfold bind, Date_now, ret.
    destruct Hshape as [Hok|[Hfail [e He]]].
    + rewrite Hok. cbn [andb].
      eexists. eexists. split; [reflexivity|]. left.
      cbn [FunctionRegistry.success FunctionRegistry.result]. split; [reflexivity|].
      apply RegistryExtras.sanitizeResult_accepted.
    + rewrite Hfail. cbn [andb].
      eexists. eexists. split; [reflexivity|]. right.
      cbn [FunctionRegistry.success FunctionRegistry.error]. split; [exact Hfail|].
      exists e. exact He.
  - eexists. eexists. split; [reflexivity|]. right. simpl. eauto.
Qed.

(** X29. What [handleFunctionCall] hands to [formatFunctionResult] can
    always be formatted. Unless sanitising is switched off, the result of
    [executeFunctionSafely] is turned into a text without an exception,
    whatever the handler returned (a BigInt included, on which
    [JSON.stringify] would throw); a failure is rendered with the message and
    the type of its error. *)
Theorem X29_safe_result_is_always_formatted (functions : FunctionRegistry.Registry)
  (name : string) (args : jsval) (options : FunctionRegistry.SafeOptions) (w : World) :
  FunctionRegistry.o_sanitizeResults options <> Some false ->
  exists r w' text,
    FunctionRegistry.executeFunctionSafely functions name args options w = (Ret r, w')
    /\ formatFunctionResult r name = Ok text
    /\ (FunctionRegistry.success r = false ->
        exists e, FunctionRegistry.error r = Some e
                  /\ text = "Error executing " ++ name ++ ": " ++ FunctionRegistry.e_message e
                              ++ " (Type: " ++ FunctionRegistry.e_type e ++ ")").
Proof.
  intros Hsan.
  destruct (executeFunctionSafely_shape functions name args options w Hsan)
    as [r [w' [Hrun [[Hok Hacc]|[Hfail [e He]]]]]]; exists r, w'.
  - unfold formatFunctionResult. rewrite Hok.
    destruct (FunctionRegistry.result r) eqn:Hres;
      try rewrite Hacc;
      (eexists; split; [exact Hrun|]; split; [reflexivity|]; intros H; discriminate H).
  - unfold formatFunctionResult. rewrite Hfail, He.
    eexists. split; [exact Hrun|]. split; [reflexivity|]. intros _. exists e.
    split; reflexivity.
Qed.

End TurnExtras.

Lemma X25_witness :
  exists env cm' w',
    processMessage (rt := sample_runtime) 1 (JStr " Hello ") (Some default_options)
      (sample_manager, flaky_world) = (Ret env, (cm', w'))
    /\ env_success env = true /\ env_message env = "It is noon"
    /\ api_calls w' = 3.
Proof.
  destruct (X25_text_answer_is_appended (rt := sample_runtime) 1 sample_manager flaky_world
              " Hello " "It is noon" default_options noon_answer 2)
    as [env [cm' [w' [u [a [Hrun [Hok [Hmsg [_ [_ [_ [_ [_ [_ Hcalls]]]]]]]]]]]]]].
  - reflexivity.
  - intros m [<-|[]]. split; discriminate.
  - discriminate.
  - reflexivity.
  - reflexivity.
  - lia.
  - intros i Hi. exists rate_limit. split; [|exact ClientProps.rate_limit_retryable].
    destruct i as [|[|i]]; [reflexivity | reflexivity | lia].
  - reflexivity.
  - reflexivity.
  - reflexivity.
  - exists env, cm', w'. split; [exact Hrun|]. split; [exact Hok|]. split; [exact Hmsg|].
    exact Hcalls.
Defined.

Lemma X26_witness :
  exists env cm' w',
    processMessage (rt := sample_runtime) 1 (JStr "Hello") (Some default_options)
      (sample_manager, late_refusal_world) = (Ret env, (cm', w'))
    /\ failure_envelope env "PROCESSING_ERROR"
    /\ api_calls w' = 2.
Proof.
  destruct (X26_failed_request_is_recorded (rt := sample_runtime) 1 sample_manager
              late_refusal_world "Hello" default_options unauthorized 1)
    as [env [cm' [w' [u [a [Hrun [Hfail [_ [_ [_ [_ [_ [_ Hcalls]]]]]]]]]]]]].
  - reflexivity.
  - intros m [<-|[]]. split; discriminate.
  - discriminate.
  - reflexivity.
  - reflexivity.
  - lia.
  - intros i Hi. exists rate_limit. split; [|exact ClientProps.rate_limit_retryable].
    destruct i as [|i]; [reflexivity | lia].
  - reflexivity.
  - left. left. reflexivity.
  - exists env, cm', w'. split; [exact Hrun|]. split; [exact Hfail | exact Hcalls].
Defined.

Lemma X29_witness :
  exists r w' text,
    FunctionRegistry.executeFunctionSafely (rt := sample_runtime) sample_registry "broken"
      (JObj []) call_options busy_world = (Ret r, w')
    /\ formatFunctionResult (rt := sample_runtime) r "broken" = Ok text.
Proof.
  destruct (X29_safe_result_is_always_formatted (rt := sample_runtime) sample_registry
              "broken" (JObj []) call_options busy_world)
    as [r [w' [text [Hrun [Htext _]]]]].
  - discriminate.
  - exists r, w', text. split; [exact Hrun | exact Htext].
Defined.

End ChatExtras.
